(** * Avr01-Xmodem-Bootloader: a shallow embedding of [bootloader.c]

    The development follows the source file function by function:
    [crc16], [xmodem], [programApp], [eeAppOK], [entryCheck] and [main],
    with the helpers they call.

    - Integers of the C program are values of [Z] with the wrap-around
      of their C type written out; bytes are [Byte.byte].
    - Pointers are data-space addresses in [Z]; pointer arithmetic is
      exact, as in C.
    - The program runs in a [world]: the bytes still to arrive on the
      serial line, the readings its polls will see, the nonvolatile
      memory behind an interface ([Nvm]), the array [xmodemData], and
      the trace of what it has received and done so far.
    - A busy-wait on a flag that the hardware sets by itself (transmitter
      ready, controller idle) is a step that ends.  A busy-wait for
      input ends when the input arrives; when the supplied input is used
      up the call is [Blocked].
    - Each [while] loop with [continue], [break] or [return] is one
      function for a pass through its body and one for the loop.

    The first part holds the definitions, the second the properties. *)

From Stdlib Require Import ZArith Arith List Lia Bool.
From Stdlib.Strings Require Import Byte.
From Stdlib Require Import FunInd Recdef.
Import ListNotations.
Open Scope Z_scope.

(** ** Machine integers *)

(** Value of a [uint8_t]. *)
Definition u8 (b : byte) : Z := Z.of_N (Byte.to_N b).

(** Conversion of an integer to [uint8_t], [uint16_t], [uint32_t]. *)
Definition wrap8 (z : Z) : Z := z mod 256.
Definition wrap16 (z : Z) : Z := z mod 65536.
Definition wrap32 (z : Z) : Z := z mod 4294967296.

(** Conversion of an integer to a byte ([char], [uint8_t]). *)
Definition to_byte (z : Z) : byte :=
  match Byte.of_N (Z.to_N (wrap8 z)) with
  | Some b => b
  | None => x00
  end.

(** ** CRC-16/XMODEM ([crc16], lines 280-290) *)

Module CRC.

(** One pass of the body of the [for] loop of [crc16]:
    [bool b15 = crc & 0x8000; crc <<= 1; if (b15) crc ^= 0x1021;]
    on a [uint16_t]. *)
Definition crc16_bit (crc : Z) : Z :=
  let b15 := negb (Z.land crc 0x8000 =? 0) in
  let crc := wrap16 (Z.shiftl crc 1) in
  if b15 then wrap16 (Z.lxor crc 0x1021) else crc.

(** [crc16 (uint16_t crc, uint8_t v)]: the byte is promoted, shifted by 8
    and xored into [crc]; the loop body runs for [i = 0 .. 7]. *)
Definition crc16 (crc : Z) (v : byte) : Z :=
  let crc := wrap16 (Z.lxor crc (Z.shiftl (u8 v) 8)) in
  Nat.iter 8 crc16_bit crc.

(** The running CRC as [xmodem] accumulates it:
    [crc = crc16 (crc, v)] for each payload byte in order. *)
Definition crc_run (crc : Z) (data : list byte) : Z :=
  fold_left crc16 data crc.

(** The loop of [crc16] taken one message bit at a time: the bit enters
    at bit 15. *)
Definition feed (c : Z) (b : bool) : Z :=
  crc16_bit (Z.lxor c (if b then 0x8000 else 0)).

(** *** The step as the specification words it *)

(** "XOR the byte (shifted to the high half of the 16-bit state) into the
    high byte of state, then for 8 iterations: if bit 15 is set, shift
    left and XOR with 0x1021, else shift left."  Arithmetic on 16-bit
    states: shifting left is doubling modulo 2^16. *)
Definition spec_shift (s : Z) : Z :=
  if Z.testbit s 15
  then Z.lxor ((2 * s) mod 2 ^ 16) 0x1021
  else (2 * s) mod 2 ^ 16.

Definition spec_step (s : Z) (v : byte) : Z :=
  Nat.iter 8 spec_shift (Z.lxor s (u8 v * 2 ^ 8)).

(** *** The reference: remainder of polynomial division over GF(2)

    CRC-16/XMODEM of a message is the remainder of the message
    polynomial, multiplied by x^16, modulo x^16 + x^12 + x^5 + 1; bits
    are taken most significant first, the register starts at 0 and
    nothing is reflected or inverted.  A polynomial is the integer whose
    binary digits are its coefficients. *)

(** The generator x^16 + x^12 + x^5 + 1. *)
Definition generator : Z := 0x11021.

(** Long division, one message bit at a time: bring the bit down, and
    subtract (xor) the generator when the degree reaches 16. *)
Definition div_step (r : Z) (b : bool) : Z :=
  let t := 2 * r + Z.b2z b in
  if Z.testbit t 16 then Z.lxor t generator else t.

Definition poly_rem (bits : list bool) : Z := fold_left div_step bits 0.

(** The bits of a byte, most significant first. *)
Definition byte_bits (v : byte) : list bool :=
  map (fun i => Z.testbit (u8 v) i) [7; 6; 5; 4; 3; 2; 1; 0].

Definition message_bits (data : list byte) : list bool :=
  flat_map byte_bits data.

(** The message times x^16 is the message followed by 16 zero bits. *)
Definition crc_xmodem_ref (data : list byte) : Z :=
  poly_rem (message_bits data ++ repeat false 16).

End CRC.

(** ** Compile-time configuration and protocol constants (lines 37-47, 151-171) *)

Definition FREQSEL : Z := 2.
Definition BL_SIZE : Z := 2048.
Definition UART_BAUD : Z := 230400.
Definition F_CPU : Z := if FREQSEL =? 2 then 10000000 else 8000000.

Definition X_NACK : byte := x15.
Definition X_ACK : byte := x06.
Definition X_SOH : byte := x01.
Definition X_EOT : byte := x04.
Definition X_PING : byte := "C"%byte.
Definition X_DATA_SIZE : nat := 128.

(** The constants that [<avr/io.h>] supplies for the selected part.  The
    header is not part of the repository; its values are parameters. *)
Class Device : Type := {
  MAPPED_PROGMEM_START : Z;
  MAPPED_PROGMEM_SIZE : Z;
  MAPPED_PROGMEM_PAGE_SIZE : Z;
  MAPPED_EEPROM_START : Z;
  MAPPED_EEPROM_SIZE : Z;
  EEPROM_END : Z;
  FUSES_START : Z;
  FUSE_MEMORY_SIZE : Z;
  SIGROW_ADDR : Z;      (* (uint16_t)&SIGROW *)
  SIGROW_SIZE : Z       (* sizeof(SIGROW_t) *)
}.

(** The memory mapped nonvolatile memory and its controller, as the
    program uses them: a store through a data-space pointer (it loads the
    page buffer), a load through a data-space pointer, and the
    erase-and-write-page command issued by [nvmWrite].  What a load
    returns after a store and a command is up to the hardware, faults
    included. *)
Class Nvm (D : Type) : Type := {
  nvm_store : Z -> byte -> D -> D;
  nvm_load : Z -> D -> byte;
  nvm_erwp : D -> D
}.

(** ** Pins (lines 83-100, 138-143) *)

Inductive port_t := PORTA | PORTB.

Record pin_t : Type := {
  port : port_t;
  pin : Z;
  pinbm : Z;
  onVal : bool
}.

Definition Led : pin_t := {| port := PORTA; pin := 3; pinbm := Z.shiftl 1 3; onVal := false |}.
Definition Sw : pin_t := {| port := PORTB; pin := 7; pinbm := Z.shiftl 1 7; onVal := false |}.
Definition UartTx : pin_t := {| port := PORTB; pin := 2; pinbm := Z.shiftl 1 2; onVal := false |}.
Definition UartRx : pin_t := {| port := PORTB; pin := 3; pinbm := Z.shiftl 1 3; onVal := false |}.

(** ** The world the program runs in *)

(** What the program does to its surroundings, in the order it does it. *)
Inductive event : Type :=
| Rx (c : byte)            (* uread: c is read from RXDATAL *)
| Tx (c : byte)            (* uwrite: c is written to TXDATAL *)
| Store (a : Z) (v : byte) (* a store through a data-space pointer *)
| NvmCmd                   (* nvmWrite: CCP = 0x9D; NVMCTRL.CTRLA = 3 *)
| NvmIdle                  (* the poll of NVMCTRL.STATUS saw the busy bit clear *)
| LedOn
| LedTog
| Init                     (* init: clock prescaler and uart set up *)
| SoftReset.               (* softReset: CCP = 0xD8; RSTCTRL.SWRR = 1 *)

Section World.

Context {D : Type}.

(** [rx]: the bytes the sender delivers, in order of arrival.
    [edges]: the values successive reads of the INTFLAGS register of the
    port of [UartRx] return.  [pins]: the values successive reads of the
    IN register of the port of [Sw] return; once they are used up the
    switch is released and the pin reads high through its pull-up.
    [trace]: the events so far, the oldest first. *)
Record world : Type := {
  rx : list byte;
  edges : list byte;
  pins : list byte;
  mem : D;
  xmodemData : list byte;
  trace : list event
}.

Definition set_rx (l : list byte) (w : world) : world :=
  {| rx := l; edges := edges w; pins := pins w; mem := mem w;
     xmodemData := xmodemData w; trace := trace w |}.
Definition set_edges (l : list byte) (w : world) : world :=
  {| rx := rx w; edges := l; pins := pins w; mem := mem w;
     xmodemData := xmodemData w; trace := trace w |}.
Definition set_pins (l : list byte) (w : world) : world :=
  {| rx := rx w; edges := edges w; pins := l; mem := mem w;
     xmodemData := xmodemData w; trace := trace w |}.
Definition set_mem (d : D) (w : world) : world :=
  {| rx := rx w; edges := edges w; pins := pins w; mem := d;
     xmodemData := xmodemData w; trace := trace w |}.
Definition set_data (l : list byte) (w : world) : world :=
  {| rx := rx w; edges := edges w; pins := pins w; mem := mem w;
     xmodemData := l; trace := trace w |}.
Definition emit (e : event) (w : world) : world :=
  {| rx := rx w; edges := edges w; pins := pins w; mem := mem w;
     xmodemData := xmodemData w; trace := trace w ++ [e] |}.

(** A call either returns, or never returns because a busy-wait is
    waiting for input that does not arrive; [Blocked] holds the world at
    that point. *)
Inductive outcome (A : Type) : Type :=
| Done (a : A) (w : world)
| Blocked (w : world).
Arguments Done {A} a w.
Arguments Blocked {A} w.

Definition cmd (A : Type) : Type := world -> outcome A.

Definition ret {A : Type} (a : A) : cmd A := fun w => Done a w.

Definition bind {A B : Type} (m : cmd A) (k : A -> cmd B) : cmd B :=
  fun w =>
    match m w with
    | Done a w' => k a w'
    | Blocked w' => Blocked w'
    end.

Definition world_of {A : Type} (o : outcome A) : world :=
  match o with
  | Done _ w => w
  | Blocked w => w
  end.

End World.

Arguments world D : clear implicits.
Arguments Build_world {D}.
Arguments rx {D} w.
Arguments edges {D} w.
Arguments pins {D} w.
Arguments mem {D} w.
Arguments xmodemData {D} w.
Arguments trace {D} w.
Arguments outcome D A : clear implicits.
Arguments Done {D A} a w.
Arguments Blocked {D A} w.
Arguments cmd D A : clear implicits.

Declare Scope cmd_scope.
Delimit Scope cmd_scope with cmd.
Notation "x <- m ;; k" := (bind m (fun x => k))
  (at level 61, m at next level, right associativity) : cmd_scope.
Notation "m ;; k" := (bind m (fun _ => k))
  (at level 61, right associativity) : cmd_scope.

Local Open Scope cmd_scope.

(** ** The program *)

(** [uint8_t xmodemData[X_DATA_SIZE]]: reading and writing one element.
    The program only uses indices below [X_DATA_SIZE]. *)
Definition array_get (a : list byte) (i : nat) : byte := nth i a x00.
Definition array_set (a : list byte) (i : nat) (v : byte) : list byte :=
  firstn i a ++ v :: skipn (S i) a.

Section Code.

Context {dev : Device} {D : Type} {nvmD : Nvm D}.

Local Abbreviation world := (world D).
Local Abbreviation outcome := (outcome D).
Local Abbreviation cmd := (cmd D).

(** *** Constants (lines 166-171) *)

Definition eeLastBytePtr : Z := EEPROM_END.
Definition appStartAddr : Z := BL_SIZE.
Definition appMemStart : Z := Z.lor MAPPED_PROGMEM_START BL_SIZE.

(** *** Hardware access *)

(** [uread] (lines 238-243): waits for RXC, then returns RXDATAL.  With
    no byte left to arrive the wait never ends. *)
Definition uread : cmd byte := fun w =>
  match rx w with
  | [] => Blocked w
  | c :: l => Done c (emit (Rx c) (set_rx l w))
  end.

(** [uwrite] (lines 231-236): waits for DREIF, which the transmitter
    sets by itself, then writes TXDATAL. *)
Definition uwrite (c : byte) : cmd unit := fun w => Done tt (emit (Tx c) w).

(** A store and a load through a [volatile uint8_t*]. *)
Definition store (a : Z) (v : byte) : cmd unit := fun w =>
  Done tt (emit (Store a v) (set_mem (nvm_store a v (mem w)) w)).
Definition load (a : Z) : cmd byte := fun w => Done (nvm_load a (mem w)) w.

(** [nvmWrite] (lines 206-207). *)
Definition nvmWrite : cmd unit := fun w =>
  Done tt (emit NvmCmd (set_mem (nvm_erwp (mem w)) w)).

Definition get_data (i : nat) : cmd byte := fun w =>
  Done (array_get (xmodemData w) i) w.
Definition put_data (i : nat) (v : byte) : cmd unit := fun w =>
  Done tt (set_data (array_set (xmodemData w) i v) w).

(** [swIsOn] (lines 180-186): pull-up on, a delay, then
    [(Sw.port->IN & (1<<Sw.pin)) == Sw.onVal<<Sw.pin]. *)
Definition swIsOn : cmd bool := fun w =>
  let (inp, l) := match pins w with
                  | [] => (xff, [])
                  | p :: l => (p, l)
                  end in
  Done (Z.land (u8 inp) (Z.shiftl 1 (pin Sw)) =? Z.shiftl (Z.b2z (onVal Sw)) (pin Sw))
       (set_pins l w).

Definition ledOn : cmd unit := fun w => Done tt (emit LedOn w).
Definition ledTog : cmd unit := fun w => Done tt (emit LedTog w).
Definition softReset : cmd unit := fun w => Done tt (emit SoftReset w).
Definition init : cmd unit := fun w => Done tt (emit Init w).

(** [isRxActive] (lines 209-215):
    [bool flag = UartRx.port->INTFLAGS & UartRx.pinbm], then the flag is
    cleared.  When the supplied readings are used up no edge is ever
    seen again. *)
Definition rx_flag (f : byte) : bool := negb (Z.land (u8 f) (pinbm UartRx) =? 0).

Definition isRxActive : cmd bool := fun w =>
  match edges w with
  | [] => Blocked w
  | f :: l => Done (rx_flag f) (set_edges l w)
  end.

(** [entryCheck] (lines 217-218); [||] evaluates left to right and stops
    at the first true operand. *)
Definition entryCheck : cmd bool :=
  flag <- load eeLastBytePtr ;;
  if Byte.eqb flag xff then ret true else
  sw <- swIsOn ;;
  if sw then ret true else
  first <- load appMemStart ;;
  ret (Byte.eqb first xff).

(** [dumpMem] (lines 245-253), on [uint16_t addr, size]. *)
Fixpoint dump_bytes (n : nat) (ptr : Z) : cmd unit :=
  match n with
  | O => ret tt
  | S n' => v <- load ptr ;; uwrite v ;; dump_bytes n' (ptr + 1)
  end.

Definition dumpMem (addr size : Z) : cmd unit :=
  let addr := wrap16 addr in
  let size := wrap16 size in
  uwrite (to_byte (Z.land addr 0xFF)) ;;
  uwrite (to_byte (Z.shiftr addr 8)) ;;
  uwrite (to_byte (Z.land size 0xFF)) ;;
  uwrite (to_byte (Z.shiftr size 8)) ;;
  dump_bytes (Z.to_nat size) addr.

Definition dumpFlash : cmd unit := dumpMem MAPPED_PROGMEM_START MAPPED_PROGMEM_SIZE.
Definition dumpEeprom : cmd unit := dumpMem MAPPED_EEPROM_START MAPPED_EEPROM_SIZE.
Definition dumpFuses : cmd unit := dumpMem FUSES_START FUSE_MEMORY_SIZE.
Definition dumpSigrow : cmd unit := dumpMem SIGROW_ADDR SIGROW_SIZE.

(** *** [Xbroadcast] (lines 263-278) *)

(** The inner loop [while( rx = isRxActive(), t-- && !rx ){}] on a
    [uint32_t t].  Each turn takes one reading of the flag, so the loop
    has ended, or is blocked, before [fuel] turns when [fuel] exceeds
    the number of readings. *)
Fixpoint Xbroadcast_poll (fuel : nat) (t : Z) : cmd bool :=
  match fuel with
  | O => fun w => Blocked w
  | S fuel' =>
      rx <- isRxActive ;;
      if negb (t =? 0) && negb rx
      then Xbroadcast_poll fuel' (wrap32 (t - 1))
      else ret rx
  end.

Definition Xbroadcast_wait (t : Z) : cmd bool := fun w =>
  Xbroadcast_poll (S (length (edges w))) t w.

(** One pass through the body of [while(1)]; [true] is the [break]. *)
Definition Xbroadcast_pass : cmd bool :=
  ledTog ;;
  uwrite X_PING ;;
  Xbroadcast_wait (wrap32 (F_CPU / 10)).

Lemma Xbroadcast_poll_shorter (fuel : nat) :
  forall t (w w' : world) rx,
  Xbroadcast_poll fuel t w = Done rx w' ->
  (length (edges w') < length (edges w))%nat /\ trace w' = trace w.
Proof.
  induction fuel as [|fuel IH]; intros t w w' rx H; [discriminate|].
  cbn [Xbroadcast_poll] in H. unfold bind, isRxActive in H.
  destruct (edges w) as [|f l] eqn:E; [discriminate|].
  destruct (negb (t =? 0) && negb (rx_flag f)).
  - apply IH in H. cbn in *. split; [lia|tauto].
  - injection H as _ <-. cbn. split; [lia|reflexivity].
Qed.

Lemma Xbroadcast_pass_shorter (w w' : world) (b : bool) :
  Xbroadcast_pass w = Done b w' -> (length (edges w') < length (edges w))%nat.
Proof.
  unfold Xbroadcast_pass, bind, ledTog, uwrite, Xbroadcast_wait. cbv beta iota.
  intros H. apply Xbroadcast_poll_shorter in H. apply H.
Qed.

Function Xbroadcast (w : world) {measure (fun w => length (edges w)) w} : outcome unit :=
  match Xbroadcast_pass w with
  | Done true w' => Done tt w'
  | Done false w' => Xbroadcast w'
  | Blocked w' => Blocked w'
  end.
Proof. intros w b w' _ e. eapply Xbroadcast_pass_shorter, e. Defined.

Lemma Xbroadcast_eq (w : world) :
  Xbroadcast w =
  match Xbroadcast_pass w with
  | Done true w' => Done tt w'
  | Done false w' => Xbroadcast w'
  | Blocked w' => Blocked w'
  end.
Proof. apply Xbroadcast_equation. Qed.

(** *** [xmodem] (lines 292-312) *)

(** The [for] loop that stores the payload and accumulates its CRC:
    [n] turns are left, [i] is the index of the next one. *)
Fixpoint recv_data (n i : nat) (crc : Z) : cmd Z :=
  match n with
  | O => ret crc
  | S n' =>
      v <- uread ;;
      put_data i v ;;
      recv_data n' (S i) (CRC.crc16 crc v)
  end.

(** One pass through the body of [while(1)].  [Some false] is
    [return false], [Some true] the [break] that leads to [return true],
    [None] a [continue] or the end of the body.  The two calls of
    [uread] in one expression are taken left to right, the order of the
    bytes on the wire.  [crc] is compared as an [unsigned int]. *)
Definition xmodem_pass : cmd (option bool) :=
  c <- uread ;;
  if Byte.eqb c X_EOT then ret (Some false) else
  if negb (Byte.eqb c X_SOH) then ret None else
  bn <- uread ;;
  bni <- uread ;;
  let blockSum := wrap8 (u8 bn + u8 bni) in
  crc <- recv_data X_DATA_SIZE 0 0 ;;
  hi <- uread ;;
  lo <- uread ;;
  if (crc =? wrap16 (Z.shiftl (u8 hi) 8 + u8 lo)) && (blockSum =? 255)
  then ret (Some true)
  else uwrite X_NACK ;; ret None.

Lemma recv_data_rx (n : nat) :
  forall i crc w r w', recv_data n i crc w = Done r w' ->
  (length (rx w') <= length (rx w))%nat.
Proof.
  induction n as [|n IH]; simpl; intros i crc w r w' H.
  - injection H as _ <-. lia.
  - unfold bind, uread, put_data in H.
    destruct (rx w) as [|c l] eqn:E; [discriminate|].
    apply IH in H. simpl in *. lia.
Qed.

Lemma xmodem_pass_shorter (w w' : world) (r : option bool) :
  xmodem_pass w = Done r w' -> (length (rx w') < length (rx w))%nat.
Proof.
  unfold xmodem_pass, bind, uread. generalize X_DATA_SIZE as n. intros n.
  destruct (rx w) as [|c l] eqn:E; [discriminate|]. simpl.
  destruct (Byte.eqb c X_EOT); [intros H; injection H as _ <-; simpl; lia|].
  destruct (negb (Byte.eqb c X_SOH)); [intros H; injection H as _ <-; simpl; lia|].
  destruct l as [|bn l]; [discriminate|]. simpl.
  destruct l as [|bni l]; [discriminate|]. simpl.
  destruct (recv_data _ _ _ _) as [crc w1|] eqn:R; [|discriminate].
  apply recv_data_rx in R. simpl in R.
  destruct (rx w1) as [|hi l1] eqn:E1; [discriminate|]. simpl.
  destruct l1 as [|lo l1]; [discriminate|]. simpl.
  destruct (_ && _); intros H; injection H as _ <-; simpl in *; lia.
Qed.

Function xmodem (w : world) {measure (fun w => length (rx w)) w} : outcome bool :=
  match xmodem_pass w with
  | Done (Some r) w' => Done r w'
  | Done None w' => xmodem w'
  | Blocked w' => Blocked w'
  end.
Proof. intros w r w' _ e. eapply xmodem_pass_shorter, e. Defined.

Lemma xmodem_eq (w : world) :
  xmodem w =
  match xmodem_pass w with
  | Done (Some r) w' => Done r w'
  | Done None w' => xmodem w'
  | Blocked w' => Blocked w'
  end.
Proof. apply xmodem_equation. Qed.

(** *** [programApp] (lines 314-341) *)

(** The loop [while( i < X_DATA_SIZE )] that copies [xmodemData] to
    [flashPtr]: [n] turns are left, [i] is the index of the next one,
    [pbc] the page buffer count, a [uint8_t]. *)
Fixpoint write_block (n : nat) (flashPtr : Z) (i : nat) (pbc : Z) : cmd unit :=
  match n with
  | O => ret tt
  | S n' =>
      v <- get_data i ;;
      store (flashPtr + Z.of_nat i) v ;;
      let pbc := wrap8 (pbc + 1) in
      if pbc <? MAPPED_PROGMEM_PAGE_SIZE
      then write_block n' flashPtr (S i) pbc
      else nvmWrite ;; write_block n' flashPtr (S i) 0
  end.

(** The loop
    [while( (flashPtr[i] == xmodemData[i]) && (++i < X_DATA_SIZE) ){}];
    the result is the value of [i] when it ends. *)
Fixpoint verify_block (n : nat) (flashPtr : Z) (i : nat) (w : world) : nat :=
  match n with
  | O => i
  | S n' =>
      if Byte.eqb (nvm_load (flashPtr + Z.of_nat i) (mem w)) (array_get (xmodemData w) i)
      then if (S i <? X_DATA_SIZE)%nat then verify_block n' flashPtr (S i) w else S i
      else i
  end.

(** One pass through [while( xmodem() ){ ... }], its condition
    included.  [None]: the condition was false and the loop ends.
    [Some p]: the body ran and left [p] in [flashPtr]. *)
Definition program_pass (flashPtr : Z) : cmd (option Z) :=
  more <- xmodem ;;
  if negb more then ret None else
  write_block X_DATA_SIZE flashPtr 0 0 ;;
  i <- (fun w => Done (verify_block X_DATA_SIZE flashPtr 0 w) w) ;;
  if negb (i =? X_DATA_SIZE)%nat
  then uwrite X_NACK ;; ret (Some flashPtr)
  else uwrite X_ACK ;; ret (Some (flashPtr + Z.of_nat X_DATA_SIZE)).

Lemma xmodem_shorter (w : world) :
  forall r w', xmodem w = Done r w' -> (length (rx w') < length (rx w))%nat.
Proof.
  remember (length (rx w)) as n eqn:En. revert w En.
  induction n as [n IH] using lt_wf_ind. intros w -> r w' H.
  rewrite xmodem_eq in H.
  destruct (xmodem_pass w) as [[b|] w1|] eqn:P.
  - injection H as _ <-. eapply xmodem_pass_shorter, P.
  - apply xmodem_pass_shorter in P.
    specialize (IH _ P w1 eq_refl _ _ H). lia.
  - discriminate.
Qed.

Lemma write_block_rx (n : nat) :
  forall p i pbc w, rx (world_of (write_block n p i pbc w)) = rx w.
Proof.
  induction n as [|n IH]; simpl; intros p i pbc w; [reflexivity|].
  unfold bind, get_data, store, nvmWrite.
  destruct (wrap8 (pbc + 1) <? MAPPED_PROGMEM_PAGE_SIZE); rewrite IH; reflexivity.
Qed.

Lemma program_pass_shorter (p : Z) (w w' : world) (r : option Z) :
  program_pass p w = Done r w' -> (length (rx w') < length (rx w))%nat.
Proof.
  unfold program_pass, bind. generalize X_DATA_SIZE as n. intros n.
  destruct (xmodem w) as [more w1|] eqn:X; [|discriminate].
  apply xmodem_shorter in X.
  destruct (negb more); [intros H; injection H as _ <-; exact X|].
  pose proof (write_block_rx n p 0%nat 0 w1) as W.
  destruct (write_block _ _ _ _ w1) as [[] w2|]; [|discriminate].
  simpl in W.
  destruct (negb _); simpl; intros H; injection H as _ <-; simpl;
    rewrite W; exact X.
Qed.

(** The loop of [programApp]; the result is [flashPtr] when it ends. *)
Function program_loop (flashPtr : Z) (w : world)
  {measure (fun w => length (rx w)) w} : outcome Z :=
  match program_pass flashPtr w with
  | Done (Some p) w' => program_loop p w'
  | Done None w' => Done flashPtr w'
  | Blocked w' => Blocked w'
  end.
Proof. intros p w r w' p' _ e. eapply program_pass_shorter, e. Defined.

Lemma program_loop_eq (flashPtr : Z) (w : world) :
  program_loop flashPtr w =
  match program_pass flashPtr w with
  | Done (Some p) w' => program_loop p w'
  | Done None w' => Done flashPtr w'
  | Blocked w' => Blocked w'
  end.
Proof. apply program_loop_equation. Qed.

Definition programApp : cmd unit :=
  Xbroadcast ;;
  ledOn ;;
  program_loop appMemStart ;;
  uwrite X_ACK.

(** *** [eeAppOK] (lines 343-349) *)

(** The wait on the busy bit ends when the controller has finished. *)
Definition eeAppOK : cmd unit :=
  store eeLastBytePtr x00 ;;
  nvmWrite ;;
  (fun w => Done tt (emit NvmIdle w)).

(** *** [main] (lines 351-373) *)

(** [while( swIsOn() ){}], one reading per turn.  After the supplied
    readings the switch reads released, so the loop has ended before
    [fuel] turns when [fuel] exceeds the number of readings. *)
Fixpoint sw_release (fuel : nat) : cmd unit :=
  match fuel with
  | O => ret tt
  | S n =>
      sw <- swIsOn ;;
      if sw then sw_release n else ret tt
  end.

(** [main] does not return: it jumps to the application, resets the
    device, or is still waiting for input. *)
Inductive exit : Type :=
| RunApp (w : world)
| Restart (w : world)
| Waiting (w : world).

Definition bootloader : cmd unit :=
  init ;;
  programApp ;;
  eeAppOK ;;
  dumpSigrow ;;
  dumpFuses ;;
  dumpFlash ;;
  dumpEeprom ;;
  (fun w => sw_release (S (length (pins w))) w) ;;
  softReset.

Definition main (w : world) : exit :=
  match entryCheck w with
  | Done false w1 => RunApp w1
  | Done true w1 =>
      match bootloader w1 with
      | Done _ w2 => Restart w2
      | Blocked w2 => Waiting w2
      end
  | Blocked w1 => Waiting w1
  end.

End Code.

Arguments exit D : clear implicits.
Arguments RunApp {D} w.
Arguments Restart {D} w.
Arguments Waiting {D} w.

(** ** A simulated device

    The nonvolatile memory of a test bench: cells that hold what was last
    programmed, a page buffer that collects the stores since the last
    command, and a fault that decides which byte really lands in a cell
    when a byte is programmed there. *)

Record sim_nvm : Type := {
  cells : Z -> byte;
  pagebuf : list (Z * byte);
  fault : Z -> byte -> byte
}.

Fixpoint buffered (a : Z) (buf : list (Z * byte)) : option byte :=
  match buf with
  | [] => None
  | (a', v) :: buf' => if a =? a' then Some v else buffered a buf'
  end.

#[export] Instance sim_Nvm : Nvm sim_nvm := {
  nvm_store a v d :=
    {| cells := cells d; pagebuf := (a, v) :: pagebuf d; fault := fault d |};
  nvm_load a d := cells d a;
  nvm_erwp d :=
    {| cells := fun a => match buffered a (pagebuf d) with
                         | Some v => fault d a v
                         | None => cells d a
                         end;
       pagebuf := [];
       fault := fault d |}
}.

(** An erased memory without faults, and one whose cell [bad] is stuck
    at the erased value. *)
Definition sim_erased : sim_nvm :=
  {| cells := fun _ => xff; pagebuf := []; fault := fun _ v => v |}.
Definition sim_stuck (bad : Z) : sim_nvm :=
  {| cells := fun _ => xff; pagebuf := [];
     fault := fun a v => if a =? bad then xff else v |}.

(** Values for the part the source names, the ATtiny3217: flash mapped
    at 0x8000 with 128-byte pages, EEPROM at 0x1400.  The sizes of the
    fuse and signature rows only set the length of the dumps. *)
Definition attiny3217 : Device := {|
  MAPPED_PROGMEM_START := 0x8000;
  MAPPED_PROGMEM_SIZE := 0x8000;
  MAPPED_PROGMEM_PAGE_SIZE := 128;
  MAPPED_EEPROM_START := 0x1400;
  MAPPED_EEPROM_SIZE := 256;
  EEPROM_END := 0x14FF;
  FUSES_START := 0x1280;
  FUSE_MEMORY_SIZE := 10;
  SIGROW_ADDR := 0x1100;
  SIGROW_SIZE := 64
|}.

(** A part of the same family with 64-byte pages. *)
Definition attiny1614 : Device := {|
  MAPPED_PROGMEM_START := 0x8000;
  MAPPED_PROGMEM_SIZE := 0x4000;
  MAPPED_PROGMEM_PAGE_SIZE := 64;
  MAPPED_EEPROM_START := 0x1400;
  MAPPED_EEPROM_SIZE := 256;
  EEPROM_END := 0x14FF;
  FUSES_START := 0x1280;
  FUSE_MEMORY_SIZE := 10;
  SIGROW_ADDR := 0x1100;
  SIGROW_SIZE := 64
|}.

(** ** The sender

    A block on the wire (specification, section 6): SOH, the block
    number, 255 minus the block number, 128 payload bytes, and the
    CRC-16/XMODEM of the payload, high byte first. *)
Definition block_with (bn bni : byte) (payload : list byte) (hi lo : byte) : list byte :=
  X_SOH :: bn :: bni :: payload ++ [hi; lo].

(** ** Vocabulary of the properties *)

(** A received frame: block number, its complement, the payload and the
    two bytes of the trailer. *)
Record frame : Type := {
  number : byte;
  inverse : byte;
  payload : list byte;
  crc_hi : byte;
  crc_lo : byte
}.

Definition wire (f : frame) : list byte :=
  block_with (number f) (inverse f) (payload f) (crc_hi f) (crc_lo f).

(** The frame a sender builds for block number [bn]. *)
Definition sent (bn : byte) (data : list byte) : frame :=
  let crc := CRC.crc_run 0 data in
  {| number := bn; inverse := to_byte (255 - u8 bn); payload := data;
     crc_hi := to_byte (Z.shiftr crc 8); crc_lo := to_byte (Z.land crc 0xFF) |}.

(** The trailer as a 16-bit number, high byte first. *)
Definition trailer (f : frame) : Z := 256 * u8 (crc_hi f) + u8 (crc_lo f).

(** The two conditions of the specification: the block number and its
    complement add up to 255 as integers, and the CRC-16/XMODEM of the
    payload is the trailer. *)
Definition pair_ok (f : frame) : Prop := u8 (number f) + u8 (inverse f) = 255.
Definition crc_ok (f : frame) : Prop := CRC.crc_xmodem_ref (payload f) = trailer f.
Definition valid (f : frame) : Prop := pair_ok f /\ crc_ok f.

Definition validb (f : frame) : bool :=
  (CRC.crc_run 0 (payload f) =? trailer f) && (u8 (number f) + u8 (inverse f) =? 255).

(** An array whose first elements were overwritten by [l]. *)
Definition overwrite (a l : list byte) : list byte := l ++ skipn (length l) a.

(** The stores that no command has followed yet. *)
Definition pending (acc : list (Z * byte)) (e : event) : list (Z * byte) :=
  match e with
  | Store a v => acc ++ [(a, v)]
  | NvmCmd => []
  | _ => acc
  end.
Definition uncommitted (tr : list event) : list (Z * byte) := fold_left pending tr [].

(** The stores of a trace, and how often a byte was sent. *)
Definition stores (tr : list event) : list (Z * byte) :=
  flat_map (fun e => match e with Store a v => [(a, v)] | _ => [] end) tr.
Definition sent_count (c : byte) (tr : list event) : nat :=
  length (filter (fun e => match e with Tx c' => Byte.eqb c c' | _ => false end) tr).




Section Vocabulary.

Context {dev : Device} {D : Type} {nvmD : Nvm D}.

(** The world after [bytes] arrived and were read, [rest] still to come. *)
Definition arrived (bytes rest : list byte) (w : world D) : world D :=
  {| rx := rest; edges := edges w; pins := pins w; mem := mem w;
     xmodemData := xmodemData w; trace := trace w ++ map Rx bytes |}.

(** The events between two worlds of one run. *)
Definition since (w w' : world D) : list event := skipn (length (trace w)) (trace w').

(** The world after the program did [evs] to the nonvolatile memory. *)
Definition perform_event (w : world D) (e : event) : world D :=
  emit e (set_mem match e with
                  | Store a v => nvm_store a v (mem w)
                  | NvmCmd => nvm_erwp (mem w)
                  | _ => mem w
                  end w).
Definition perform (evs : list event) (w : world D) : world D :=
  fold_left perform_event evs w.


(** Reading back the block at [p] gives the content of [xmodemData]. *)
Definition readback_ok (p : Z) (w : world D) : bool :=
  forallb (fun i => Byte.eqb (nvm_load (p + Z.of_nat i) (mem w))
                             (array_get (xmodemData w) i))
          (seq 0 X_DATA_SIZE).

(** The events of the copy loop of [programApp] on the array [a]: the
    stores, and the commands where the page buffer count reaches the
    page size. *)
Fixpoint block_events (n : nat) (p : Z) (i : nat) (pbc : Z) (a : list byte) : list event :=
  match n with
  | O => []
  | S n' =>
      Store (p + Z.of_nat i) (array_get a i) ::
      (if wrap8 (pbc + 1) <? MAPPED_PROGMEM_PAGE_SIZE
       then block_events n' p (S i) (wrap8 (pbc + 1)) a
       else NvmCmd :: block_events n' p (S i) 0 a)
  end.



(** The world after the copy loop ran at [p]. *)
Definition copied (p : Z) (w : world D) : world D :=
  perform (block_events X_DATA_SIZE p 0 0 (xmodemData w)) w.

(** [m] only adds events that satisfy [P] to the trace. *)
Definition emits {A : Type} (P : event -> Prop) (m : cmd D A) : Prop :=
  forall w, exists new, trace (world_of (m w)) = trace w ++ new /\ Forall P new.

(** The world after the frame [f] was read into [xmodemData]. *)
Definition taken (f : frame) (rest : list byte) (w : world D) : world D :=
  arrived (wire f) rest (set_data (overwrite (xmodemData w) (payload f)) w).

(** The pass of [xmodem] over the frame [f] accepts it: the loop is left
    and [xmodem] returns true.  It rejects it: one NACK is sent and the
    loop starts over. *)
Definition accepted (f : frame) (rest : list byte) (w : world D) : Prop :=
  xmodem_pass w = Done (Some true) (taken f rest w).
Definition rejected (f : frame) (rest : list byte) (w : world D) : Prop :=
  xmodem_pass w = Done None (emit (Tx X_NACK) (taken f rest w)).

(** The world after the frames [fs] were read and each answered by NACK. *)
Fixpoint after_rejects (fs : list frame) (rest : list byte) (w : world D) : world D :=
  match fs with
  | [] => w
  | f :: fs' =>
      after_rejects fs' rest
        (emit (Tx X_NACK) (taken f (flat_map wire fs' ++ rest) w))
  end.

(** The trace of a rejected frame. *)
Definition reject_events (f : frame) : list event := map Rx (wire f) ++ [Tx X_NACK].

(** The block of [xmodemData] as stores at [p]. *)
Definition block_stores (p : Z) (a : list byte) : list (Z * byte) :=
  map (fun i => (p + Z.of_nat i, array_get a i)) (seq 0 X_DATA_SIZE).

(** The verdict on the copy at [p]: the next value of [flashPtr] and
    the world after the answer. *)
Definition verdict (p : Z) (w : world D) : Z * world D :=
  if readback_ok p (copied p w)
  then (p + Z.of_nat X_DATA_SIZE, emit (Tx X_ACK) (copied p w))
  else (p, emit (Tx X_NACK) (copied p w)).

(** The three signals of the entry decision: the flag reads erased, the
    switch reads pressed (its pin, bit 7 of the port, reads low), the
    first byte of the application reads erased. *)
Definition flag_erased (w : world D) : bool :=
  Byte.eqb (nvm_load eeLastBytePtr (mem w)) xff.
Definition sw_pressed (w : world D) : bool :=
  match pins w with
  | [] => false
  | c :: _ => negb (Z.testbit (u8 c) 7)
  end.
Definition app_erased (w : world D) : bool :=
  Byte.eqb (nvm_load appMemStart (mem w)) xff.



End Vocabulary.

(** ** Inputs for the examples *)

Definition demo_payload : list byte := repeat "A"%byte 128.
Definition demo_frame : frame := sent x01 demo_payload.
Definition demo_bad_frame : frame :=
  {| number := x01; inverse := xfe; payload := demo_payload;
     crc_hi := x00; crc_lo := x00 |}.
Definition demo_world (l : list byte) (d : sim_nvm) : world sim_nvm :=
  {| rx := l; edges := [x08]; pins := []; mem := d;
     xmodemData := repeat x00 128; trace := [] |}.

Definition demo_payload2 : list byte := repeat "B"%byte 128.

(** A part with 256-byte pages, outside the family the source is
    written for. *)
Definition page256 : Device := {|
  MAPPED_PROGMEM_START := 0x8000;
  MAPPED_PROGMEM_SIZE := 0x8000;
  MAPPED_PROGMEM_PAGE_SIZE := 256;
  MAPPED_EEPROM_START := 0x1400;
  MAPPED_EEPROM_SIZE := 256;
  EEPROM_END := 0x14FF;
  FUSES_START := 0x1280;
  FUSE_MEMORY_SIZE := 10;
  SIGROW_ADDR := 0x1100;
  SIGROW_SIZE := 64
|}.

(** What a run shows: the bytes sent, and the cells of the simulated
    memory from [a] on. *)
Definition tx_bytes (tr : list event) : list byte :=
  flat_map (fun e => match e with Tx c => [c] | _ => [] end) tr.
Definition cells_from (a : Z) (n : nat) (d : sim_nvm) : list byte :=
  map (fun i => cells d (a + Z.of_nat i)) (seq 0 n).

(** ** Vocabulary of the further properties *)

(** The frame [f] with another payload between the same header and
    trailer. *)
Definition with_payload (f : frame) (data : list byte) : frame :=
  {| number := number f; inverse := inverse f; payload := data;
     crc_hi := crc_hi f; crc_lo := crc_lo f |}.

(** A byte that neither starts a frame nor ends the transfer. *)
Definition idle_byte (c : byte) : Prop := c <> X_SOH /\ c <> X_EOT.

(** [k] rounds of the handshake: the led toggles and "C" is sent. *)
Definition pings (k : nat) : list event := concat (repeat [LedTog; Tx X_PING] k).

(** The readings of the edge flag that one round of the handshake takes
    when none of them shows an edge: [F_CPU/10] turns of the inner loop
    that go on, and the one that finds [t] at 0. *)
Definition polls_per_ping : Z := wrap32 (F_CPU / 10) + 1.

(** A reading of the interrupt flags without an edge on the RX pin. *)
Definition quiet (f : byte) : Prop := rx_flag f = false.

(** How many commands a trace gives to the memory controller. *)
Definition commits (tr : list event) : nat :=
  length (filter (fun e => match e with NvmCmd => true | _ => false end) tr).

(** A reading of the port with the switch pressed: bit 7 is low. *)
Definition pressed (c : byte) : bool := negb (Z.testbit (u8 c) 7).

(** The readings of the port that are left after the first one that
    shows the switch released. *)
Fixpoint released_after (l : list byte) : list byte :=
  match l with
  | [] => []
  | c :: l' => if pressed c then released_after l' else l'
  end.

(** What the peer makes of a dump: two bytes of address and two bytes
    of length, low byte first, then as many bytes as the length says.
    The result is the address, the bytes, and what follows them. *)
Definition parse_dump (l : list byte) : option (Z * list byte * list byte) :=
  match l with
  | a0 :: a1 :: s0 :: s1 :: l' =>
      let size := Z.to_nat (u8 s0 + 256 * u8 s1) in
      if (size <=? length l')%nat
      then Some (u8 a0 + 256 * u8 a1, firstn size l', skipn size l')
      else None
  | _ => None
  end.

Fixpoint parse_dumps (n : nat) (l : list byte) : option (list (Z * list byte) * list byte) :=
  match n with
  | O => Some ([], l)
  | S n' =>
      match parse_dump l with
      | Some (a, data, rest) =>
          match parse_dumps n' rest with
          | Some (ds, rest') => Some ((a, data) :: ds, rest')
          | None => None
          end
      | None => None
      end
  end.

(** A region of [size] bytes at [addr] that a 16-bit pointer walks
    through without wrapping around. *)
Definition in_range (r : Z * Z) : Prop := wrap16 (fst r) + wrap16 (snd r) <= 65536.

Section Vocabulary_more.

Context {dev : Device} {D : Type} {nvmD : Nvm D}.

(** The world after [k] rounds of the handshake that left [rest] of the
    readings. *)
Definition handshake (k : nat) (rest : list byte) (w : world D) : world D :=
  {| rx := rx w; edges := rest; pins := pins w; mem := mem w;
     xmodemData := xmodemData w; trace := trace w ++ pings k |}.

(** The world after [bytes] were sent. *)
Definition transmitted (bytes : list byte) (w : world D) : world D :=
  {| rx := rx w; edges := edges w; pins := pins w; mem := mem w;
     xmodemData := xmodemData w; trace := trace w ++ map Tx bytes |}.

(** The [n] bytes that the memory [d] reads from [a] on. *)
Definition region (a : Z) (n : nat) (d : D) : list byte :=
  map (fun i => nvm_load (a + Z.of_nat i) d) (seq 0 n).

(** A dump of the memory [d]: the header and the bytes. *)
Definition dump_stream (addr size : Z) (d : D) : list byte :=
  [to_byte (Z.land (wrap16 addr) 0xFF); to_byte (Z.shiftr (wrap16 addr) 8);
   to_byte (Z.land (wrap16 size) 0xFF); to_byte (Z.shiftr (wrap16 size) 8)] ++
  region (wrap16 addr) (Z.to_nat (wrap16 size)) d.

(** The regions that [main] dumps, in its order, as address and size. *)
Definition dump_regions : list (Z * Z) :=
  [(SIGROW_ADDR, SIGROW_SIZE); (FUSES_START, FUSE_MEMORY_SIZE);
   (MAPPED_PROGMEM_START, MAPPED_PROGMEM_SIZE);
   (MAPPED_EEPROM_START, MAPPED_EEPROM_SIZE)].

(** What a dump of the region [r] of the memory [d] should give. *)
Definition dumped (d : D) (r : Z * Z) : Z * list byte :=
  (wrap16 (fst r), region (wrap16 (fst r)) (Z.to_nat (wrap16 (snd r))) d).

(** The world after the frames [fs] were read one after the other, each
    copied to where [flashPtr] stood and answered with ACK. *)
Fixpoint after_blocks (p : Z) (fs : list frame) (rest : list byte) (w : world D) : world D :=
  match fs with
  | [] => w
  | f :: fs' =>
      after_blocks (p + Z.of_nat X_DATA_SIZE) fs' rest
        (emit (Tx X_ACK) (copied p (taken f (flat_map wire fs' ++ rest) w)))
  end.

(** Every one of these copies reads back as it was received. *)
Fixpoint all_verified (p : Z) (fs : list frame) (rest : list byte) (w : world D) : Prop :=
  match fs with
  | [] => True
  | f :: fs' =>
      readback_ok p (copied p (taken f (flat_map wire fs' ++ rest) w)) = true /\
      all_verified (p + Z.of_nat X_DATA_SIZE) fs' rest
        (emit (Tx X_ACK) (copied p (taken f (flat_map wire fs' ++ rest) w)))
  end.

(** The payloads of [fs] as stores to consecutive blocks from [p] on. *)
Fixpoint session_stores (p : Z) (fs : list frame) : list (Z * byte) :=
  match fs with
  | [] => []
  | f :: fs' => block_stores p (payload f) ++ session_stores (p + Z.of_nat X_DATA_SIZE) fs'
  end.

(** The world after the flag was programmed. *)
Definition flagged (w : world D) : world D :=
  emit NvmIdle (perform [Store eeLastBytePtr x00; NvmCmd] w).

End Vocabulary_more.

(** Inputs for the examples of the further properties. *)
Definition demo_struck : list byte := "B"%byte :: repeat "A"%byte 127.
Definition demo_polls (l : list byte) : world sim_nvm :=
  {| rx := []; edges := l; pins := []; mem := sim_erased;
     xmodemData := repeat x00 128; trace := [] |}.
Definition demo_frames : list frame := [sent x01 demo_payload; sent x02 demo_payload2].

(** * Properties *)

(** ** Machine integers *)

Lemma u8_range (b : byte) : 0 <= u8 b < 256.
Proof.
  unfold u8. pose proof (Byte.to_N_bounded b). lia.
Qed.

Lemma u8_inj (a b : byte) : u8 a = u8 b -> a = b.
Proof.
  unfold u8. intros H. apply N2Z.inj in H.
  apply (f_equal Byte.of_N) in H.
  rewrite !Byte.of_to_N in H. congruence.
Qed.

Lemma byte_eqb_u8 (a b : byte) : Byte.eqb a b = (u8 a =? u8 b).
Proof.
  destruct (Byte.eqb a b) eqn:E.
  - apply Byte.byte_dec_bl in E. subst. symmetry. apply Z.eqb_refl.
  - symmetry. apply Z.eqb_neq. intros H. apply u8_inj in H. subst.
    rewrite (Byte.byte_dec_lb eq_refl) in E. discriminate.
Qed.

Lemma byte_eqb_refl (a : byte) : Byte.eqb a a = true.
Proof. rewrite byte_eqb_u8. apply Z.eqb_refl. Qed.

Lemma byte_eqb_eq (a b : byte) : Byte.eqb a b = true <-> a = b.
Proof.
  rewrite byte_eqb_u8, Z.eqb_eq. split; [apply u8_inj | congruence].
Qed.

Lemma u8_to_byte (z : Z) : 0 <= z < 256 -> u8 (to_byte z) = z.
Proof.
  intros Hz. unfold to_byte, wrap8. rewrite Z.mod_small by lia.
  destruct (Byte.of_N (Z.to_N z)) as [b|] eqn:E.
  - apply Byte.to_of_N in E. unfold u8. rewrite E. lia.
  - apply Byte.of_N_None_iff in E. lia.
Qed.

Lemma to_byte_u8 (b : byte) : to_byte (u8 b) = b.
Proof. apply u8_inj, u8_to_byte, u8_range. Qed.

(** ** CRC-16/XMODEM *)

Module CRC_facts.
Import CRC.

Lemma wrap16_bits (x n : Z) :
  0 <= n -> Z.testbit (wrap16 x) n = (n <? 16) && Z.testbit x n.
Proof.
  intros Hn. unfold wrap16. change 65536 with (2 ^ 16).
  apply Z.testbit_mod_pow2. lia.
Qed.

Lemma wrap16_range (x : Z) : 0 <= wrap16 x < 65536.
Proof. unfold wrap16. apply Z.mod_pos_bound. lia. Qed.

Lemma wrap16_small (x : Z) : 0 <= x < 65536 -> wrap16 x = x.
Proof. intros H. unfold wrap16. apply Z.mod_small, H. Qed.

Lemma high_bits_16 (x n : Z) : 0 <= x < 65536 -> 16 <= n -> Z.testbit x n = false.
Proof.
  intros Hx Hn. rewrite <- (wrap16_small x Hx), wrap16_bits by lia.
  replace (n <? 16) with false by (symmetry; apply Z.ltb_ge; lia). reflexivity.
Qed.

Lemma b15_testbit (c : Z) : negb (Z.land c 0x8000 =? 0) = Z.testbit c 15.
Proof.
  change 0x8000 with (2 ^ 15).
  destruct (Z.testbit c 15) eqn:E.
  - destruct (Z.land c (2 ^ 15) =? 0) eqn:L; [|reflexivity].
    apply Z.eqb_eq in L. apply (f_equal (fun z => Z.testbit z 15)) in L.
    rewrite Z.land_spec, E, Z.pow2_bits_true, Z.bits_0 in L by lia. discriminate.
  - replace (Z.land c (2 ^ 15)) with 0; [reflexivity|].
    apply Z.bits_inj'. intros n Hn.
    rewrite Z.bits_0, Z.land_spec, Z.pow2_bits_eqb by lia.
    destruct (15 =? n) eqn:N; [|symmetry; apply andb_false_r].
    apply Z.eqb_eq in N. subst n. rewrite E. reflexivity.
Qed.

(** The bits of the state after one turn of the loop. *)
Lemma crc16_bit_bits (c n : Z) :
  0 <= n ->
  Z.testbit (crc16_bit c) n =
  (n <? 16) && xorb (Z.testbit c (n - 1)) (Z.testbit c 15 && Z.testbit 0x1021 n).
Proof.
  intros Hn. unfold crc16_bit. rewrite b15_testbit.
  destruct (Z.testbit c 15).
  - rewrite wrap16_bits, Z.lxor_spec, wrap16_bits, Z.shiftl_spec by lia.
    destruct (n <? 16); reflexivity.
  - rewrite wrap16_bits, Z.shiftl_spec by lia.
    rewrite andb_false_l, xorb_false_r. reflexivity.
Qed.

Lemma crc16_bit_range (c : Z) : 0 <= crc16_bit c < 65536.
Proof.
  unfold crc16_bit. destruct (negb _); apply wrap16_range.
Qed.

(** One turn is linear over GF(2). *)
Lemma crc16_bit_lxor (a b : Z) :
  crc16_bit (Z.lxor a b) = Z.lxor (crc16_bit a) (crc16_bit b).
Proof.
  apply Z.bits_inj'. intros n Hn.
  rewrite Z.lxor_spec, !crc16_bit_bits, !Z.lxor_spec by lia.
  destruct (n <? 16), (Z.testbit a (n - 1)), (Z.testbit b (n - 1)),
    (Z.testbit a 15), (Z.testbit b 15), (Z.testbit 0x1021 n); reflexivity.
Qed.

Lemma crc16_bit_wrap16 (x : Z) : crc16_bit (wrap16 x) = crc16_bit x.
Proof.
  apply Z.bits_inj'. intros n Hn. rewrite !crc16_bit_bits by lia.
  destruct (n <? 16) eqn:N; [|reflexivity].
  apply Z.ltb_lt in N. rewrite (wrap16_bits x 15) by lia.
  destruct (Z.eq_dec n 0) as [->|N0].
  - rewrite !Z.testbit_neg_r by lia. reflexivity.
  - rewrite wrap16_bits by lia.
    replace (n - 1 <? 16) with true by (symmetry; apply Z.ltb_lt; lia).
    reflexivity.
Qed.

Lemma crc16_bit_0 : crc16_bit 0 = 0.
Proof. reflexivity. Qed.

Lemma iter_lxor (n : nat) (a b : Z) :
  Nat.iter n crc16_bit (Z.lxor a b) =
  Z.lxor (Nat.iter n crc16_bit a) (Nat.iter n crc16_bit b).
Proof.
  induction n as [|n IH]; simpl; [reflexivity|].
  rewrite IH. apply crc16_bit_lxor.
Qed.

Lemma iter_range (n : nat) (c : Z) :
  0 <= c < 65536 -> 0 <= Nat.iter n crc16_bit c < 65536.
Proof.
  intros Hc. destruct n as [|n]; simpl; [exact Hc|apply crc16_bit_range].
Qed.

Lemma iter_succ_r (n : nat) (c : Z) :
  Nat.iter (S n) crc16_bit c = Nat.iter n crc16_bit (crc16_bit c).
Proof.
  induction n as [|n IH]; [reflexivity|].
  simpl in *. rewrite IH. reflexivity.
Qed.

Lemma iter_shift (n : nat) (c : Z) :
  Nat.iter n crc16_bit (crc16_bit c) = crc16_bit (Nat.iter n crc16_bit c).
Proof. rewrite <- iter_succ_r. reflexivity. Qed.

Lemma crc16_range (c : Z) (v : byte) : 0 <= crc16 c v < 65536.
Proof. unfold crc16. simpl. apply crc16_bit_range. Qed.

Lemma crc_run_range (data : list byte) :
  forall c, 0 <= c < 65536 -> 0 <= crc_run c data < 65536.
Proof.
  unfold crc_run. induction data as [|v data IH]; simpl; intros c Hc; [exact Hc|].
  apply IH, crc16_range.
Qed.

Lemma crc_run_app (a b : list byte) (c : Z) :
  crc_run c (a ++ b) = crc_run (crc_run c a) b.
Proof. unfold crc_run. apply fold_left_app. Qed.

(** *** The step as the specification words it *)

Lemma poly_high_bits (n : Z) : 16 <= n -> Z.testbit 0x1021 n = false.
Proof. intros Hn. apply high_bits_16; lia. Qed.

Lemma spec_shift_crc16_bit (s : Z) : spec_shift s = crc16_bit s.
Proof.
  apply Z.bits_inj'. intros n Hn. rewrite crc16_bit_bits by lia.
  unfold spec_shift.
  replace (2 * s) with (Z.shiftl s 1) by (rewrite Z.shiftl_mul_pow2; lia).
  destruct (Z.testbit s 15).
  - rewrite Z.lxor_spec, Z.testbit_mod_pow2, Z.shiftl_spec by lia.
    destruct (n <? 16) eqn:N; [reflexivity|].
    apply Z.ltb_ge in N. rewrite poly_high_bits by lia. reflexivity.
  - rewrite Z.testbit_mod_pow2, Z.shiftl_spec by lia.
    rewrite andb_false_l, xorb_false_r. reflexivity.
Qed.

Lemma iter_spec_shift (n : nat) (s : Z) :
  Nat.iter n spec_shift s = Nat.iter n crc16_bit s.
Proof.
  induction n as [|n IH]; simpl; [reflexivity|].
  rewrite IH. apply spec_shift_crc16_bit.
Qed.

Lemma iter_wrap16 (n : nat) (x : Z) :
  Nat.iter (S n) crc16_bit (wrap16 x) = Nat.iter (S n) crc16_bit x.
Proof. rewrite !iter_succ_r, crc16_bit_wrap16. reflexivity. Qed.

Lemma crc16_unwrapped (c : Z) (v : byte) :
  crc16 c v = Nat.iter 8 crc16_bit (Z.lxor c (Z.shiftl (u8 v) 8)).
Proof. unfold crc16. apply iter_wrap16. Qed.

Lemma crc16_spec_step (s : Z) (v : byte) : crc16 s v = spec_step s v.
Proof.
  rewrite crc16_unwrapped. unfold spec_step.
  rewrite iter_spec_shift, Z.shiftl_mul_pow2 by lia. reflexivity.
Qed.

(** *** The reference *)

Lemma feed_lxor (c : Z) (b : bool) :
  feed c b = Z.lxor (crc16_bit c) (feed 0 b).
Proof. unfold feed. rewrite crc16_bit_lxor, Z.lxor_0_l. reflexivity. Qed.

Lemma fold_feed_lxor (bs : list bool) :
  forall c, fold_left feed bs c =
            Z.lxor (Nat.iter (length bs) crc16_bit c) (fold_left feed bs 0).
Proof.
  induction bs as [|b bs IH]; intros c.
  - simpl. rewrite Z.lxor_0_r. reflexivity.
  - cbn [fold_left length]. rewrite IH, (IH (feed 0 b)), iter_succ_r.
    rewrite (feed_lxor c b), iter_lxor, Z.lxor_assoc. reflexivity.
Qed.

Lemma byte_bits_length (v : byte) : length (byte_bits v) = 8%nat.
Proof. reflexivity. Qed.

Lemma feed_byte_table (v : byte) :
  Nat.iter 8 crc16_bit (Z.shiftl (u8 v) 8) = fold_left feed (byte_bits v) 0.
Proof. destruct v; vm_compute; reflexivity. Qed.

Lemma crc16_feed (c : Z) (v : byte) : crc16 c v = fold_left feed (byte_bits v) c.
Proof.
  rewrite crc16_unwrapped, iter_lxor, fold_feed_lxor, byte_bits_length.
  rewrite feed_byte_table. reflexivity.
Qed.

Lemma crc_run_feed (data : list byte) :
  forall c, crc_run c data = fold_left feed (message_bits data) c.
Proof.
  unfold crc_run, message_bits.
  induction data as [|v data IH]; intros c; [reflexivity|].
  cbn [fold_left flat_map]. rewrite fold_left_app, IH, crc16_feed. reflexivity.
Qed.

Lemma lxor_range16 (a b : Z) :
  0 <= a < 65536 -> 0 <= b < 65536 -> 0 <= Z.lxor a b < 65536.
Proof.
  intros Ha Hb.
  assert (wrap16 (Z.lxor a b) = Z.lxor a b) as E.
  { apply Z.bits_inj'. intros n Hn. rewrite wrap16_bits by lia.
    destruct (n <? 16) eqn:N; [reflexivity|]. apply Z.ltb_ge in N.
    rewrite Z.lxor_spec, !high_bits_16 by lia. reflexivity. }
  rewrite <- E. apply wrap16_range.
Qed.

Lemma generator_bits (n : Z) :
  0 <= n -> Z.testbit generator n = Z.testbit 0x1021 n || (n =? 16).
Proof.
  intros Hn. change generator with (Z.lor 0x1021 (2 ^ 16)).
  rewrite Z.lor_spec, Z.pow2_bits_eqb, (Z.eqb_sym 16 n) by lia. reflexivity.
Qed.

(** Long division brings the bit down at bit 0 of the shifted register. *)
Lemma div_step_crc16_bit (r : Z) (b : bool) :
  0 <= r < 65536 -> div_step r b = Z.lxor (crc16_bit r) (Z.b2z b).
Proof.
  intros Hr. unfold div_step.
  assert (forall n, 0 <= n ->
            Z.testbit (2 * r + Z.b2z b) n =
            if n =? 0 then b else Z.testbit r (n - 1)) as T.
  { intros n Hn. destruct (n =? 0) eqn:N.
    - apply Z.eqb_eq in N. subst n. apply Z.testbit_0_r.
    - apply Z.eqb_neq in N. replace n with (Z.succ (n - 1)) at 1 by lia.
      apply Z.testbit_succ_r. lia. }
  assert (forall n, 0 <= n -> Z.testbit (Z.b2z b) n = (n =? 0) && b) as B.
  { intros n Hn. destruct (n =? 0) eqn:N.
    - apply Z.eqb_eq in N. subst n. apply Z.b2z_bit0.
    - apply Z.eqb_neq in N. destruct b; simpl.
      + change 1 with (2 ^ 0). apply Z.pow2_bits_false. lia.
      + apply Z.bits_0. }
  rewrite (T 16) by lia. change (16 =? 0) with false. cbv iota.
  change (16 - 1) with 15.
  apply Z.bits_inj'. intros n Hn.
  rewrite (Z.lxor_spec (crc16_bit r)), crc16_bit_bits, B by lia.
  destruct (Z.testbit r 15) eqn:R15.
  - rewrite Z.lxor_spec, T, generator_bits by lia.
    destruct (n =? 0) eqn:N0.
    + apply Z.eqb_eq in N0. subst n. rewrite (Z.testbit_neg_r r) by lia.
      destruct b; reflexivity.
    + apply Z.eqb_neq in N0. rewrite andb_false_l, xorb_false_r, andb_true_l.
      destruct (n =? 16) eqn:N16.
      * apply Z.eqb_eq in N16. subst n. change (16 - 1) with 15.
        rewrite R15. reflexivity.
      * apply Z.eqb_neq in N16. rewrite orb_false_r.
        destruct (n <? 16) eqn:N; [reflexivity|]. apply Z.ltb_ge in N.
        rewrite poly_high_bits, high_bits_16 by lia. reflexivity.
  - rewrite T by lia. rewrite andb_false_l, xorb_false_r.
    destruct (n =? 0) eqn:N0.
    + apply Z.eqb_eq in N0. subst n. rewrite (Z.testbit_neg_r r) by lia.
      destruct b; reflexivity.
    + apply Z.eqb_neq in N0. rewrite andb_false_l, xorb_false_r.
      destruct (n <? 16) eqn:N; [reflexivity|]. apply Z.ltb_ge in N.
      rewrite andb_false_l.
      destruct (Z.eq_dec n 16) as [->|N16]; [exact R15|].
      apply high_bits_16; lia.
Qed.

Lemma div_step_range (r : Z) (b : bool) :
  0 <= r < 65536 -> 0 <= div_step r b < 65536.
Proof.
  intros Hr. rewrite div_step_crc16_bit by exact Hr.
  apply lxor_range16; [apply crc16_bit_range|destruct b; simpl; lia].
Qed.

Lemma fold_div_step_range (bs : list bool) :
  forall r, 0 <= r < 65536 -> 0 <= fold_left div_step bs r < 65536.
Proof.
  induction bs as [|b bs IH]; intros r Hr; [exact Hr|].
  cbn [fold_left]. apply IH, div_step_range, Hr.
Qed.

Lemma feed_tail (b : bool) : Nat.iter 16 crc16_bit (Z.b2z b) = feed 0 b.
Proof. destruct b; vm_compute; reflexivity. Qed.

(** Sixteen more shifts turn the division register into the state of
    [crc16]. *)
Lemma division_feed_gen (k : nat)
  (Hk : forall b, Nat.iter k crc16_bit (Z.b2z b) = feed 0 b) (bs : list bool) :
  forall r, 0 <= r < 65536 ->
  Nat.iter k crc16_bit (fold_left div_step bs r) =
  fold_left feed bs (Nat.iter k crc16_bit r).
Proof.
  induction bs as [|b bs IH]; intros r Hr; cbn [fold_left]; [reflexivity|].
  rewrite IH by (apply div_step_range, Hr). f_equal.
  rewrite div_step_crc16_bit, iter_lxor, Hk by exact Hr.
  rewrite (feed_lxor (Nat.iter k crc16_bit r) b), iter_shift. reflexivity.
Qed.

Lemma division_feed (bs : list bool) (r : Z) :
  0 <= r < 65536 ->
  Nat.iter 16 crc16_bit (fold_left div_step bs r) =
  fold_left feed bs (Nat.iter 16 crc16_bit r).
Proof. apply division_feed_gen, feed_tail. Qed.

Lemma iter_0 (n : nat) : Nat.iter n crc16_bit 0 = 0.
Proof.
  induction n as [|n IH]; [reflexivity|].
  rewrite iter_succ_r, crc16_bit_0. exact IH.
Qed.

Lemma div_zero_bits (k : nat) :
  forall r, 0 <= r < 65536 ->
  fold_left div_step (repeat false k) r = Nat.iter k crc16_bit r.
Proof.
  induction k as [|k IH]; intros r Hr; [reflexivity|].
  cbn [repeat fold_left]. rewrite IH by (apply div_step_range, Hr).
  rewrite div_step_crc16_bit by exact Hr. cbn [Z.b2z].
  rewrite Z.lxor_0_r, iter_shift. reflexivity.
Qed.

Lemma crc_run_reference (data : list byte) :
  crc_run 0 data = crc_xmodem_ref data.
Proof.
  unfold crc_xmodem_ref, poly_rem. rewrite fold_left_app.
  rewrite div_zero_bits by (apply fold_div_step_range; lia).
  rewrite division_feed by lia.
  rewrite iter_0. apply crc_run_feed.
Qed.

(** C4.  [crc16] is one step of CRC-16/XMODEM as the specification words
    it (the byte xored into the high half of the state, then eight
    shifts with 0x1021 xored in when bit 15 was set); from seed 0 the
    empty input gives 0, and the running CRC of every byte sequence is
    the remainder of the message polynomial times x^16 modulo
    x^16 + x^12 + x^5 + 1, the reference CRC-16/XMODEM. *)
Theorem crc16_is_xmodem_crc :
  (forall (s : Z) (v : byte), crc16 s v = spec_step s v) /\
  crc_run 0 [] = 0 /\
  (forall data : list byte, crc_run 0 data = crc_xmodem_ref data).
Proof.
  split; [exact crc16_spec_step|].
  split; [reflexivity|exact crc_run_reference].
Qed.

(** The check value of the CRC catalogue for "123456789". *)
Example crc_check_value :
  crc_run 0 ["1"; "2"; "3"; "4"; "5"; "6"; "7"; "8"; "9"]%byte = 0x31C3.
Proof. reflexivity. Qed.

End CRC_facts.

(** ** Arrays and traces *)

Lemma overwrite_overwrite (a l1 l2 : list byte) :
  length l1 = length l2 -> overwrite (overwrite a l1) l2 = overwrite a l2.
Proof.
  intros H. unfold overwrite. f_equal.
  rewrite skipn_app, <- H, skipn_all, Nat.sub_diag. reflexivity.
Qed.

Lemma overwrite_get (a l : list byte) (i : nat) :
  (i < length l)%nat -> array_get (overwrite a l) i = array_get l i.
Proof. intros H. unfold array_get, overwrite. apply app_nth1, H. Qed.

Lemma overwrite_full (a l : list byte) :
  length a = length l -> overwrite a l = l.
Proof.
  intros H. unfold overwrite. rewrite <- H, skipn_all. apply app_nil_r.
Qed.

(** Writing the elements of [l] one by one from index [i] on. *)
Lemma array_set_next (a l : list byte) (v : byte) (i : nat) :
  (i <= length a)%nat ->
  firstn (S i) (array_set a i v) ++ l ++ skipn (S i + length l) (array_set a i v) =
  firstn i a ++ (v :: l) ++ skipn (i + length (v :: l)) a.
Proof.
  intros Hi. unfold array_set.
  assert (length (firstn i a) = i) as Hf by (rewrite length_firstn; lia).
  replace (S i) with (length (firstn i a) + 1)%nat at 1 by lia.
  rewrite firstn_app_2. cbn [firstn].
  replace (S i + length l)%nat with (length (firstn i a) + S (length l))%nat by lia.
  rewrite skipn_app, skipn_all2 by lia.
  replace (length (firstn i a) + S (length l) - length (firstn i a))%nat
    with (S (length l)) by lia.
  rewrite skipn_cons, skipn_skipn, <- app_assoc. cbn [app length].
  replace (length l + S i)%nat with (i + S (length l))%nat by lia.
  reflexivity.
Qed.

Lemma since_app {D : Type} (w w' : world D) (new : list event) :
  trace w' = trace w ++ new -> since w w' = new.
Proof.
  intros H. unfold since. rewrite H, skipn_app, skipn_all, Nat.sub_diag.
  reflexivity.
Qed.


Lemma stores_app (a b : list event) : stores (a ++ b) = stores a ++ stores b.
Proof. unfold stores. apply flat_map_app. Qed.

Lemma sent_count_app (c : byte) (a b : list event) :
  sent_count c (a ++ b) = (sent_count c a + sent_count c b)%nat.
Proof. unfold sent_count. rewrite filter_app, length_app. reflexivity. Qed.

(** ** The receiver: [xmodem] *)

Lemma wrap8_sum_255 (a b : byte) :
  (wrap8 (u8 a + u8 b) =? 255) = (u8 a + u8 b =? 255).
Proof.
  pose proof (u8_range a). pose proof (u8_range b). unfold wrap8.
  destruct (Z.eqb_spec (u8 a + u8 b) 255) as [E|E].
  - rewrite E. reflexivity.
  - apply Z.eqb_neq. intros M.
    destruct (Z_lt_ge_dec (u8 a + u8 b) 256) as [L|G].
    + rewrite Z.mod_small in M by lia. lia.
    + replace (u8 a + u8 b) with (u8 a + u8 b - 256 + 1 * 256) in M by lia.
      rewrite Z.mod_add, Z.mod_small in M by lia. lia.
Qed.

Lemma trailer_wrap16 (hi lo : byte) :
  wrap16 (Z.shiftl (u8 hi) 8 + u8 lo) = 256 * u8 hi + u8 lo.
Proof.
  pose proof (u8_range hi). pose proof (u8_range lo).
  rewrite Z.shiftl_mul_pow2 by lia. change (2 ^ 8) with 256.
  unfold wrap16. rewrite Z.mod_small; lia.
Qed.

Lemma validb_valid (f : frame) : validb f = true <-> valid f.
Proof.
  unfold validb, valid, pair_ok, crc_ok.
  rewrite andb_true_iff, !Z.eqb_eq, CRC_facts.crc_run_reference. tauto.
Qed.

Lemma validb_invalid (f : frame) : validb f = false <-> ~ valid f.
Proof.
  rewrite <- validb_valid. destruct (validb f); split; intros H; congruence.
Qed.

Section Receiver.

Context {dev : Device} {D : Type} {nvmD : Nvm D}.

Local Abbreviation world := (world D).

Lemma world_eq (a b : world) :
  rx a = rx b -> edges a = edges b -> pins a = pins b -> mem a = mem b ->
  xmodemData a = xmodemData b -> trace a = trace b -> a = b.
Proof.
  destruct a, b. simpl. intros. subst. reflexivity.
Qed.

Lemma uread_cons (w : world) (c : byte) (l : list byte) :
  rx w = c :: l -> uread w = Done c (arrived [c] l w).
Proof. intros H. unfold uread. rewrite H. reflexivity. Qed.

Lemma uread_empty (w : world) : rx w = [] -> uread w = Blocked w.
Proof. intros H. unfold uread. rewrite H. reflexivity. Qed.

Lemma recv_data_payload (l : list byte) :
  forall i crc (w : world) rest,
  rx w = l ++ rest -> (i <= length (xmodemData w))%nat ->
  recv_data (length l) i crc w =
  Done (CRC.crc_run crc l)
       (arrived l rest
          (set_data (firstn i (xmodemData w) ++ l ++
                     skipn (i + length l) (xmodemData w)) w)).
Proof.
  induction l as [|v l IH]; intros i crc w rest Hrx Hi.
  - cbn [length recv_data]. unfold ret. f_equal.
    apply world_eq; cbn; try reflexivity.
    + exact Hrx.
    + rewrite Nat.add_0_r, firstn_skipn. reflexivity.
    + rewrite app_nil_r. reflexivity.
  - cbn [length recv_data]. unfold bind.
    rewrite (uread_cons w v (l ++ rest) Hrx). unfold put_data.
    rewrite (IH (S i) _ _ rest); cbn; try reflexivity.
    + f_equal. apply world_eq; cbn; try reflexivity.
      * apply array_set_next, Hi.
      * rewrite <- app_assoc. reflexivity.
    + unfold array_set. rewrite length_app, length_firstn. cbn. lia.
Qed.

(** One pass over a whole frame: the decision of line 308. *)
Lemma xmodem_pass_frame (f : frame) (rest : list byte) (w : world) :
  length (payload f) = X_DATA_SIZE ->
  rx w = wire f ++ rest ->
  xmodem_pass w =
  if validb f
  then Done (Some true) (taken f rest w)
  else Done None (emit (Tx X_NACK) (taken f rest w)).
Proof.
  intros Hlen Hrx. unfold xmodem_pass, bind.
  unfold wire, block_with in Hrx. cbn [app] in Hrx.
  rewrite (uread_cons w _ _ Hrx).
  change (Byte.eqb X_SOH X_EOT) with false.
  change (negb (Byte.eqb X_SOH X_SOH)) with false. cbv beta iota.
  erewrite uread_cons by reflexivity. cbv beta iota.
  erewrite uread_cons by reflexivity. cbv beta iota.
  rewrite <- Hlen.
  erewrite recv_data_payload;
    [|cbn [rx arrived]; rewrite <- app_assoc; reflexivity | cbn; lia].
  cbv beta iota.
  erewrite uread_cons by reflexivity. cbv beta iota.
  erewrite uread_cons by reflexivity. cbv beta iota.
  rewrite wrap8_sum_255, trailer_wrap16. unfold validb, trailer.
  assert (forall a b : world, a = b ->
            forall c : bool,
              (if c then ret (Some true) else bind (uwrite X_NACK) (fun _ => ret None)) a =
              (if c then Done (Some true) b else Done None (emit (Tx X_NACK) b))) as K.
  { intros a b <- c. destruct c; reflexivity. }
  apply K. unfold taken.
  apply world_eq; cbn; try reflexivity.
  unfold wire, block_with. cbn [map app]. rewrite !map_app. cbn [map app].
  repeat (rewrite <- app_assoc; cbn [app]). reflexivity.
Qed.

Lemma xmodem_frame_valid (f : frame) (rest : list byte) (w : world) :
  length (payload f) = X_DATA_SIZE ->
  rx w = wire f ++ rest ->
  valid f ->
  xmodem w = Done true (taken f rest w).
Proof.
  intros Hlen Hrx Hv. rewrite xmodem_eq, (xmodem_pass_frame f rest w Hlen Hrx).
  apply validb_valid in Hv. rewrite Hv. reflexivity.
Qed.

Lemma xmodem_frame_invalid (f : frame) (rest : list byte) (w : world) :
  length (payload f) = X_DATA_SIZE ->
  rx w = wire f ++ rest ->
  ~ valid f ->
  xmodem w = xmodem (emit (Tx X_NACK) (taken f rest w)).
Proof.
  intros Hlen Hrx Hv. rewrite xmodem_eq, (xmodem_pass_frame f rest w Hlen Hrx).
  apply validb_invalid in Hv. rewrite Hv. reflexivity.
Qed.

Lemma xmodem_eot (rest : list byte) (w : world) :
  rx w = X_EOT :: rest ->
  xmodem w = Done false (arrived [X_EOT] rest w).
Proof.
  intros Hrx. rewrite xmodem_eq. unfold xmodem_pass, bind.
  rewrite (uread_cons w _ _ Hrx). reflexivity.
Qed.

Lemma xmodem_noise (c : byte) (rest : list byte) (w : world) :
  rx w = c :: rest -> c <> X_EOT -> c <> X_SOH ->
  xmodem w = xmodem (arrived [c] rest w).
Proof.
  intros Hrx He Hs. rewrite xmodem_eq. unfold xmodem_pass, bind.
  rewrite (uread_cons w _ _ Hrx).
  destruct (Byte.eqb c X_EOT) eqn:E; [apply byte_eqb_eq in E; contradiction|].
  destruct (Byte.eqb c X_SOH) eqn:S; [apply byte_eqb_eq in S; contradiction|].
  reflexivity.
Qed.

Lemma xmodem_starved (w : world) : rx w = [] -> xmodem w = Blocked w.
Proof.
  intros Hrx. rewrite xmodem_eq. unfold xmodem_pass, bind.
  rewrite (uread_empty w Hrx). reflexivity.
Qed.

End Receiver.

(** ** The programmer: the loop of [programApp] *)

Section Programmer.

Context {dev : Device} {D : Type} {nvmD : Nvm D}.

Local Abbreviation world := (world D).

Lemma perform_cons (e : event) (evs : list event) (w : world) :
  perform (e :: evs) w = perform evs (perform_event w e).
Proof. reflexivity. Qed.

Lemma perform_app (a b : list event) (w : world) :
  perform (a ++ b) w = perform b (perform a w).
Proof. unfold perform. apply fold_left_app. Qed.

Lemma perform_rx (evs : list event) : forall w : world, rx (perform evs w) = rx w.
Proof.
  induction evs as [|e evs IH]; intros w; [reflexivity|].
  rewrite perform_cons, IH. reflexivity.
Qed.

Lemma perform_data (evs : list event) :
  forall w : world, xmodemData (perform evs w) = xmodemData w.
Proof.
  induction evs as [|e evs IH]; intros w; [reflexivity|].
  rewrite perform_cons, IH. reflexivity.
Qed.

Lemma perform_trace (evs : list event) :
  forall w : world, trace (perform evs w) = trace w ++ evs.
Proof.
  induction evs as [|e evs IH]; intros w.
  - cbn. rewrite app_nil_r. reflexivity.
  - rewrite perform_cons, IH. cbn. rewrite <- app_assoc. reflexivity.
Qed.

(** The copy loop does what [block_events] lists. *)
Lemma write_block_events (n : nat) :
  forall p i pbc (w : world),
  write_block n p i pbc w =
  Done tt (perform (block_events n p i pbc (xmodemData w)) w).
Proof.
  induction n as [|n IH]; intros p i pbc w; [reflexivity|].
  cbn [write_block block_events]. unfold bind, get_data, store. cbv beta iota.
  destruct (wrap8 (pbc + 1) <? MAPPED_PROGMEM_PAGE_SIZE).
  - rewrite IH. reflexivity.
  - unfold nvmWrite. rewrite IH. reflexivity.
Qed.

Lemma stores_block_events (n : nat) :
  forall p i pbc a,
  stores (block_events n p i pbc a) =
  map (fun k => (p + Z.of_nat k, array_get a k)) (seq i n).
Proof.
  induction n as [|n IH]; intros p i pbc a; [reflexivity|].
  cbn [block_events seq map].
  destruct (wrap8 (pbc + 1) <? MAPPED_PROGMEM_PAGE_SIZE).
  - change (stores (?e :: ?l)) with (stores [e] ++ stores l).
    rewrite IH. reflexivity.
  - change (stores (?e :: NvmCmd :: ?l)) with (stores [e] ++ stores l).
    rewrite IH. reflexivity.
Qed.




(** The verify loop ends with [i == X_DATA_SIZE] exactly when every
    byte read back is the byte of [xmodemData]. *)
Lemma verify_block_spec (p : Z) (w : world) (n : nat) :
  forall i, (i + n = X_DATA_SIZE)%nat -> (0 < n)%nat ->
  (verify_block n p i w =? X_DATA_SIZE)%nat =
  forallb (fun k => Byte.eqb (nvm_load (p + Z.of_nat k) (mem w))
                             (array_get (xmodemData w) k)) (seq i n).
Proof.
  induction n as [|n IH]; intros i Hi Hn; [lia|].
  cbn [verify_block seq forallb].
  destruct (Byte.eqb _ _).
  - destruct (S i <? X_DATA_SIZE)%nat eqn:L.
    + apply Nat.ltb_lt in L. apply IH; lia.
    + apply Nat.ltb_ge in L. assert (n = 0%nat) as -> by lia.
      cbn [seq forallb andb]. apply Nat.eqb_eq. lia.
  - cbn [andb]. apply Nat.eqb_neq. lia.
Qed.

Lemma verify_readback (p : Z) (w : world) :
  (verify_block X_DATA_SIZE p 0 w =? X_DATA_SIZE)%nat = readback_ok p w.
Proof. apply verify_block_spec; unfold X_DATA_SIZE; lia. Qed.

Lemma readback_ok_iff (p : Z) (w : world) :
  readback_ok p w = true <->
  forall i, (i < X_DATA_SIZE)%nat ->
            nvm_load (p + Z.of_nat i) (mem w) = array_get (xmodemData w) i.
Proof.
  unfold readback_ok. rewrite forallb_forall. split.
  - intros H i Hi. apply byte_eqb_eq, H, in_seq. lia.
  - intros H i Hi. apply in_seq in Hi. apply byte_eqb_eq, H. lia.
Qed.

Lemma write_block_copied (p : Z) (w : world) :
  write_block X_DATA_SIZE p 0 0 w = Done tt (copied p w).
Proof. unfold copied. apply write_block_events. Qed.

(** One pass of the loop of [programApp], by the result of [xmodem]. *)
Lemma program_pass_result (p : Z) (w : world) :
  program_pass p w =
  match xmodem w with
  | Blocked w1 => Blocked w1
  | Done false w1 => Done None w1
  | Done true w1 =>
      if readback_ok p (copied p w1)
      then Done (Some (p + Z.of_nat X_DATA_SIZE)) (emit (Tx X_ACK) (copied p w1))
      else Done (Some p) (emit (Tx X_NACK) (copied p w1))
  end.
Proof.
  unfold program_pass, bind.
  destruct (xmodem w) as [[|] w1|]; cbn [negb]; try reflexivity.
  rewrite write_block_copied. cbv beta iota.
  rewrite verify_readback.
  destruct (readback_ok p (copied p w1)); reflexivity.
Qed.

Lemma program_pass_frame (f : frame) (rest : list byte) (w : world) (p : Z) :
  length (payload f) = X_DATA_SIZE ->
  rx w = wire f ++ rest ->
  valid f ->
  program_pass p w =
  if readback_ok p (copied p (taken f rest w))
  then Done (Some (p + Z.of_nat X_DATA_SIZE))
            (emit (Tx X_ACK) (copied p (taken f rest w)))
  else Done (Some p) (emit (Tx X_NACK) (copied p (taken f rest w))).
Proof.
  intros Hlen Hrx Hv.
  rewrite program_pass_result, (xmodem_frame_valid f rest w Hlen Hrx Hv).
  reflexivity.
Qed.

Lemma program_pass_eot (rest : list byte) (w : world) (p : Z) :
  rx w = X_EOT :: rest ->
  program_pass p w = Done None (arrived [X_EOT] rest w).
Proof.
  intros Hrx. rewrite program_pass_result, (xmodem_eot rest w Hrx). reflexivity.
Qed.

Lemma program_loop_eot (rest : list byte) (w : world) (p : Z) :
  rx w = X_EOT :: rest ->
  program_loop p w = Done p (arrived [X_EOT] rest w).
Proof.
  intros Hrx. rewrite program_loop_eq, (program_pass_eot rest w p Hrx).
  reflexivity.
Qed.

Lemma copied_data (p : Z) (w : world) : xmodemData (copied p w) = xmodemData w.
Proof. apply perform_data. Qed.

Lemma copied_rx (p : Z) (w : world) : rx (copied p w) = rx w.
Proof. apply perform_rx. Qed.

Lemma copied_trace (p : Z) (w : world) :
  trace (copied p w) =
  trace w ++ block_events X_DATA_SIZE p 0 0 (xmodemData w).
Proof. apply perform_trace. Qed.

Lemma copied_stores (p : Z) (w : world) :
  stores (since w (copied p w)) =
  map (fun i => (p + Z.of_nat i, array_get (xmodemData w) i)) (seq 0 X_DATA_SIZE).
Proof.
  rewrite (since_app w _ _ (copied_trace p w)). apply stores_block_events.
Qed.

Lemma taken_data_get (f : frame) (rest : list byte) (w : world) (i : nat) :
  length (payload f) = X_DATA_SIZE -> (i < X_DATA_SIZE)%nat ->
  array_get (xmodemData (taken f rest w)) i = array_get (payload f) i.
Proof. intros Hlen Hi. cbn. apply overwrite_get. lia. Qed.

End Programmer.

(** ** What each function adds to the trace *)

Lemma sent_count_none (c : byte) (tr : list event) :
  Forall (fun e => e <> Tx c) tr -> sent_count c tr = 0%nat.
Proof.
  unfold sent_count. induction 1 as [|e tr He _ IH]; [reflexivity|].
  cbn [filter]. destruct e; try exact IH.
  destruct (Byte.eqb c c0) eqn:E; [|exact IH].
  apply byte_eqb_eq in E. subst. contradiction.
Qed.

Section Effects.

Context {dev : Device} {D : Type} {nvmD : Nvm D}.

Local Abbreviation world := (world D).
Local Abbreviation cmd := (cmd D).
Local Abbreviation emits := (emits (D:=D)).



Lemma emits_weaken {A : Type} (P Q : event -> Prop) (m : cmd A) :
  (forall e, P e -> Q e) -> emits P m -> emits Q m.
Proof.
  intros H Hm w. destruct (Hm w) as [n [T F]]. exists n. split; [exact T|].
  eapply Forall_impl; eassumption.
Qed.

Lemma emits_one {A : Type} (P : event -> Prop) (e : event) (f : world -> world) (a : A) :
  P e -> (forall w, trace (f w) = trace w) ->
  emits P (fun w => Done a (emit e (f w))).
Proof.
  intros He Hf w. exists [e]. split; [cbn; rewrite Hf; reflexivity|].
  constructor; [exact He|constructor].
Qed.

Lemma emits_silent {A : Type} (P : event -> Prop) (m : cmd A) :
  (forall w, trace (world_of (m w)) = trace w) -> emits P m.
Proof.
  intros H w. exists []. split; [rewrite H, app_nil_r; reflexivity|constructor].
Qed.



Lemma emits_store (P : event -> Prop) (a : Z) (v : byte) :
  P (Store a v) -> emits P (store a v).
Proof.
  intros H.
  apply (emits_one P (Store a v) (fun w => set_mem (nvm_store a v (mem w)) w) tt H).
  reflexivity.
Qed.

Lemma emits_nvmWrite (P : event -> Prop) : P NvmCmd -> emits P nvmWrite.
Proof.
  intros H.
  apply (emits_one P NvmCmd (fun w => set_mem (nvm_erwp (mem w)) w) tt H).
  reflexivity.
Qed.


Lemma emits_swIsOn (P : event -> Prop) : emits P swIsOn.
Proof.
  apply emits_silent. intros w. unfold swIsOn.
  destruct (pins w); reflexivity.
Qed.














(** The two loops that are written with fuel never use it up: one more
    turn of fuel changes nothing. *)
Lemma Xbroadcast_poll_fuel (n : nat) :
  forall t (w : world),
  (length (edges w) < n)%nat ->
  Xbroadcast_poll (S n) t w = Xbroadcast_poll n t w.
Proof.
  induction n as [|n IH]; intros t w H; [lia|].
  change (Xbroadcast_poll (S (S n)) t w)
    with (bind isRxActive (fun rx =>
            if negb (t =? 0) && negb rx
            then Xbroadcast_poll (S n) (wrap32 (t - 1)) else ret rx) w).
  change (Xbroadcast_poll (S n) t w)
    with (bind isRxActive (fun rx =>
            if negb (t =? 0) && negb rx
            then Xbroadcast_poll n (wrap32 (t - 1)) else ret rx) w).
  unfold bind, isRxActive. destruct (edges w) as [|f l] eqn:E; [reflexivity|].
  destruct (negb (t =? 0) && negb (rx_flag f)); [|reflexivity].
  apply IH. cbn in *. lia.
Qed.

Lemma sw_release_fuel (n : nat) :
  forall w : world,
  (length (pins w) < n)%nat -> sw_release (S n) w = sw_release n w.
Proof.
  induction n as [|n IH]; intros w H; [lia|].
  change (sw_release (S (S n)) w)
    with (bind swIsOn (fun sw => if sw then sw_release (S n) else ret tt) w).
  change (sw_release (S n) w)
    with (bind swIsOn (fun sw => if sw then sw_release n else ret tt) w).
  unfold bind, swIsOn. destruct (pins w) as [|c l] eqn:E; cbv beta iota.
  - reflexivity.
  - destruct (_ =? _); [|reflexivity]. apply IH. cbn in *. lia.
Qed.
















End Effects.

(** * The claims *)

Lemma sent_count_rx (c : byte) (l : list byte) : sent_count c (map Rx l) = 0%nat.
Proof.
  apply sent_count_none. apply Forall_forall. intros e He.
  apply in_map_iff in He. destruct He as [b [<- _]]. discriminate.
Qed.

Lemma sent_count_rejects (fs : list frame) :
  sent_count X_NACK (flat_map reject_events fs) = length fs.
Proof.
  induction fs as [|f fs IH]; [reflexivity|].
  cbn [flat_map length]. unfold reject_events at 1.
  rewrite !sent_count_app, sent_count_rx, IH. reflexivity.
Qed.

Section Claims.

Context {dev : Device} {D : Type} {nvmD : Nvm D}.

Local Abbreviation world := (world D).

(** C1.  A received frame is accepted by [xmodem] exactly when its block
    number and complement add up to 255 as integers and the
    CRC-16/XMODEM of its 128 payload bytes, from seed 0, is the
    big-endian trailer.  With a bad pair it is rejected whatever the
    CRC, with a good pair and a bad CRC it is rejected, with both good
    it is accepted.  A rejected frame is answered by NACK and the loop
    of [xmodem] starts over. *)
Theorem block_accepted_iff (f : frame) (rest : list byte) (w : world) :
  length (payload f) = X_DATA_SIZE ->
  rx w = wire f ++ rest ->
  (accepted f rest w <-> pair_ok f /\ crc_ok f) /\
  (rejected f rest w <-> ~ (pair_ok f /\ crc_ok f)) /\
  (~ pair_ok f -> rejected f rest w) /\
  (pair_ok f -> ~ crc_ok f -> rejected f rest w) /\
  (pair_ok f -> crc_ok f ->
   accepted f rest w /\ xmodem w = Done true (taken f rest w)) /\
  (~ (pair_ok f /\ crc_ok f) ->
   xmodem w = xmodem (emit (Tx X_NACK) (taken f rest w))).
Proof.
  intros Hlen Hrx. pose proof (xmodem_pass_frame f rest w Hlen Hrx) as P.
  assert (accepted f rest w <-> valid f) as A.
  { unfold accepted. rewrite P. destruct (validb f) eqn:V.
    - apply validb_valid in V. tauto.
    - apply validb_invalid in V. split; [discriminate|contradiction]. }
  assert (rejected f rest w <-> ~ valid f) as R.
  { unfold rejected. rewrite P. destruct (validb f) eqn:V.
    - apply validb_valid in V. split; [discriminate|contradiction].
    - apply validb_invalid in V. tauto. }
  unfold valid in *. repeat split; try tauto.
  - intros. apply xmodem_frame_valid; [exact Hlen|exact Hrx|split; assumption].
  - intros. apply xmodem_frame_invalid; assumption.
Qed.

Lemma xmodem_after_rejects (fs : list frame) :
  forall rest (w : world),
  Forall (fun f => length (payload f) = X_DATA_SIZE /\ ~ valid f) fs ->
  rx w = flat_map wire fs ++ rest ->
  xmodem w = xmodem (after_rejects fs rest w) /\
  trace (after_rejects fs rest w) = trace w ++ flat_map reject_events fs /\
  rx (after_rejects fs rest w) = rest.
Proof.
  induction fs as [|f fs IH]; intros rest w Hfs Hrx.
  - cbn. rewrite app_nil_r. auto.
  - inversion Hfs as [|f' fs' [Hlen Hbad] Hfs']. subst.
    cbn [flat_map] in Hrx. rewrite <- app_assoc in Hrx.
    pose proof (xmodem_frame_invalid f _ w Hlen Hrx Hbad) as X.
    destruct (IH rest (emit (Tx X_NACK) (taken f (flat_map wire fs ++ rest) w))
                Hfs' eq_refl) as [X' [T' R']].
    cbn [after_rejects flat_map]. split; [congruence|]. split; [|exact R'].
    rewrite T'. cbn [trace emit taken arrived]. unfold reject_events at 2.
    rewrite <- !app_assoc. reflexivity.
Qed.

(** C8.  Every frame that fails validation is answered by exactly one
    NACK, after which [xmodem] is at the top of its loop again, waiting
    for the next start or end marker.  However many frames fail in a
    row, the loop goes on: no failure ends it. *)
Theorem rejected_frames_are_retried (fs : list frame) (rest : list byte) (w : world) :
  Forall (fun f => length (payload f) = X_DATA_SIZE /\ ~ valid f) fs ->
  rx w = flat_map wire fs ++ rest ->
  xmodem w = xmodem (after_rejects fs rest w) /\
  since w (after_rejects fs rest w) = flat_map reject_events fs /\
  sent_count X_NACK (since w (after_rejects fs rest w)) = length fs /\
  rx (after_rejects fs rest w) = rest.
Proof.
  intros Hfs Hrx. destruct (xmodem_after_rejects fs rest w Hfs Hrx) as [X [T R]].
  rewrite (since_app _ _ _ T), sent_count_rejects. auto.
Qed.

(** C9.  When the byte read at the start of a frame is the end marker
    0x04, [xmodem] returns false and leaves [xmodemData] alone, the loop
    of [programApp] ends with [flashPtr] where it was, and [programApp]
    answers with a single ACK. *)
Theorem eot_ends_transfer (rest : list byte) (w : world) (p : Z) :
  rx w = X_EOT :: rest ->
  xmodem w = Done false (arrived [X_EOT] rest w) /\
  program_loop p w = Done p (arrived [X_EOT] rest w) /\
  bind (program_loop p) (fun _ => uwrite X_ACK) w =
    Done tt (emit (Tx X_ACK) (arrived [X_EOT] rest w)) /\
  since w (emit (Tx X_ACK) (arrived [X_EOT] rest w)) = [Rx X_EOT; Tx X_ACK] /\
  (forall w0, Xbroadcast w0 = Done tt w ->
     programApp w0 =
     Done tt (emit (Tx X_ACK) (arrived [X_EOT] rest (emit LedOn w)))).
Proof.
  intros Hrx. split; [apply xmodem_eot, Hrx|].
  split; [apply program_loop_eot, Hrx|].
  split; [unfold bind; rewrite (program_loop_eot rest w p Hrx); reflexivity|].
  split; [apply since_app; cbn; rewrite <- app_assoc; reflexivity|].
  intros w0 H0. unfold programApp, bind. rewrite H0. unfold ledOn at 1.
  cbv beta iota. rewrite (program_loop_eot rest (emit LedOn w) appMemStart Hrx).
  reflexivity.
Qed.

Lemma stores_rx (l : list byte) : stores (map Rx l) = [].
Proof. induction l as [|c l IH]; [reflexivity|exact IH]. Qed.


Lemma block_stores_ext (p : Z) (a b : list byte) :
  (forall i, (i < X_DATA_SIZE)%nat -> array_get a i = array_get b i) ->
  block_stores p a = block_stores p b.
Proof.
  intros H. unfold block_stores. apply map_ext_in. intros i Hi.
  apply in_seq in Hi. rewrite H by lia. reflexivity.
Qed.

Lemma rx_emit (e : event) (w : world) : rx (emit e w) = rx w.
Proof. reflexivity. Qed.


Lemma trace_emit (e : event) (w : world) : trace (emit e w) = trace w ++ [e].
Proof. reflexivity. Qed.

Lemma verdict_cases (p : Z) (w : world) :
  verdict p w = (p + Z.of_nat X_DATA_SIZE, emit (Tx X_ACK) (copied p w)) \/
  verdict p w = (p, emit (Tx X_NACK) (copied p w)).
Proof.
  unfold verdict. destruct (readback_ok p (copied p w)); [left|right]; reflexivity.
Qed.

Lemma snd_pair {A B : Type} (a : A) (b : B) : snd (a, b) = b.
Proof. reflexivity. Qed.

Lemma verdict_trace (p : Z) (w : world) :
  exists v, trace (snd (verdict p w)) =
            trace w ++ block_events X_DATA_SIZE p 0 0 (xmodemData w) ++ [Tx v].
Proof.
  destruct (verdict_cases p w) as [E|E]; rewrite E, snd_pair, trace_emit,
    copied_trace, <- app_assoc; eexists; reflexivity.
Qed.

Lemma verdict_rx (p : Z) (w : world) : rx (snd (verdict p w)) = rx w.
Proof.
  destruct (verdict_cases p w) as [E|E]; rewrite E, snd_pair, rx_emit;
    apply copied_rx.
Qed.

Lemma verdict_stores (p : Z) (w : world) :
  stores (since w (snd (verdict p w))) = block_stores p (xmodemData w).
Proof.
  destruct (verdict_trace p w) as [v T]. rewrite (since_app _ _ _ T).
  rewrite stores_app, stores_block_events. cbn [stores flat_map].
  apply app_nil_r.
Qed.

Lemma program_pass_verdict (p : Z) (w w1 : world) :
  xmodem w = Done true w1 ->
  program_pass p w = Done (Some (fst (verdict p w1))) (snd (verdict p w1)).
Proof.
  intros X. rewrite program_pass_result, X. unfold verdict.
  destruct (readback_ok p (copied p w1)); reflexivity.
Qed.

(** C2.  For an accepted payload the 128 bytes are stored at
    [flashPtr], then read back and compared with the payload.  If all
    128 are equal, ACK is sent and [flashPtr] moves on by 128; if one of
    them differs, NACK is sent and [flashPtr] stays, so that the next
    attempt stores to the same region. *)
Theorem verify_gate (f : frame) (rest : list byte) (w : world) (p : Z) :
  length (payload f) = X_DATA_SIZE ->
  rx w = wire f ++ rest ->
  valid f ->
  stores (since (taken f rest w) (copied p (taken f rest w))) =
    block_stores p (payload f) /\
  ((forall i, (i < X_DATA_SIZE)%nat ->
      nvm_load (p + Z.of_nat i) (mem (copied p (taken f rest w))) =
      array_get (payload f) i) ->
   program_pass p w =
   Done (Some (p + Z.of_nat X_DATA_SIZE))
        (emit (Tx X_ACK) (copied p (taken f rest w)))) /\
  (forall i, (i < X_DATA_SIZE)%nat ->
      nvm_load (p + Z.of_nat i) (mem (copied p (taken f rest w))) <>
      array_get (payload f) i ->
   program_pass p w =
   Done (Some p) (emit (Tx X_NACK) (copied p (taken f rest w)))).
Proof.
  intros Hlen Hrx Hv.
  pose proof (program_pass_frame f rest w p Hlen Hrx Hv) as P.
  split; [|split].
  - rewrite copied_stores. apply block_stores_ext. intros i Hi.
    apply taken_data_get; assumption.
  - intros H. rewrite P.
    replace (readback_ok p (copied p (taken f rest w))) with true; [reflexivity|].
    symmetry. apply readback_ok_iff. intros i Hi.
    rewrite copied_data, taken_data_get by assumption. apply H, Hi.
  - intros i Hi H. rewrite P.
    destruct (readback_ok p (copied p (taken f rest w))) eqn:R; [|reflexivity].
    exfalso. apply H. rewrite (proj1 (readback_ok_iff _ _) R i Hi).
    rewrite copied_data. apply taken_data_get; assumption.
Qed.




(** C10.  The block number only has to pair with its complement.  Two
    valid frames in a row are both accepted and both stored at the
    value [flashPtr] has when they arrive, whatever their block numbers
    are: equal, or in any order. *)
Theorem block_number_not_checked
  (f g : frame) (rest : list byte) (w : world) (p : Z) :
  length (payload f) = X_DATA_SIZE ->
  length (payload g) = X_DATA_SIZE ->
  valid f ->
  valid g ->
  rx w = wire f ++ wire g ++ rest ->
  accepted f (wire g ++ rest) w /\
  program_pass p w =
    Done (Some (fst (verdict p (taken f (wire g ++ rest) w))))
         (snd (verdict p (taken f (wire g ++ rest) w))) /\
  stores (since w (snd (verdict p (taken f (wire g ++ rest) w)))) =
    block_stores p (payload f) /\
  accepted g rest (snd (verdict p (taken f (wire g ++ rest) w))) /\
  program_pass (fst (verdict p (taken f (wire g ++ rest) w)))
               (snd (verdict p (taken f (wire g ++ rest) w))) =
    Done (Some (fst (verdict (fst (verdict p (taken f (wire g ++ rest) w)))
                             (taken g rest (snd (verdict p (taken f (wire g ++ rest) w)))))))
         (snd (verdict (fst (verdict p (taken f (wire g ++ rest) w)))
                       (taken g rest (snd (verdict p (taken f (wire g ++ rest) w)))))) /\
  stores (since (snd (verdict p (taken f (wire g ++ rest) w)))
                (snd (verdict (fst (verdict p (taken f (wire g ++ rest) w)))
                              (taken g rest (snd (verdict p (taken f (wire g ++ rest) w)))))))
    = block_stores (fst (verdict p (taken f (wire g ++ rest) w))) (payload g).
Proof.
  intros Lf Lg Vf Vg Hrx.
  set (w1 := taken f (wire g ++ rest) w).
  set (p1 := fst (verdict p w1)). set (w2 := snd (verdict p w1)).
  assert (rx w2 = wire g ++ rest) as Hrx2 by (unfold w2; apply verdict_rx).
  assert (forall (h : frame) (r : list byte) (v : world) (q : Z),
            length (payload h) = X_DATA_SIZE -> rx v = wire h ++ r -> valid h ->
            accepted h r v /\
            program_pass q v =
              Done (Some (fst (verdict q (taken h r v)))) (snd (verdict q (taken h r v))) /\
            stores (since v (snd (verdict q (taken h r v)))) =
              block_stores q (payload h)) as K.
  { intros h r v q Lh Hv Vh.
    pose proof (xmodem_frame_valid h r v Lh Hv Vh) as X.
    split; [|split].
    - unfold accepted. rewrite (xmodem_pass_frame h r v Lh Hv).
      apply validb_valid in Vh. rewrite Vh. reflexivity.
    - apply program_pass_verdict, X.
    - destruct (verdict_trace q (taken h r v)) as [c T].
      assert (trace (taken h r v) = trace v ++ map Rx (wire h)) as T0 by reflexivity.
      rewrite T0, <- app_assoc in T. rewrite (since_app _ _ _ T).
      rewrite !stores_app, stores_rx, stores_block_events.
      cbn [stores flat_map app]. rewrite app_nil_r.
      apply block_stores_ext. intros i Hi. apply taken_data_get; assumption. }
  destruct (K f (wire g ++ rest) w p Lf Hrx Vf) as [A1 [P1 S1]].
  destruct (K g rest w2 p1 Lg Hrx2 Vg) as [A2 [P2 S2]].
  repeat split; assumption.
Qed.

Lemma land_128_bit7 (x : Z) : (Z.land x 128 =? 0) = negb (Z.testbit x 7).
Proof.
  change 128 with (2 ^ 7).
  destruct (Z.testbit x 7) eqn:E.
  - apply Z.eqb_neq. intros L. apply (f_equal (fun z => Z.testbit z 7)) in L.
    rewrite Z.land_spec, E, Z.pow2_bits_true, Z.bits_0 in L by lia. discriminate.
  - apply Z.eqb_eq. apply Z.bits_inj'. intros n Hn.
    rewrite Z.bits_0, Z.land_spec, Z.pow2_bits_eqb by lia.
    destruct (7 =? n) eqn:N; [|apply andb_false_r].
    apply Z.eqb_eq in N. subst n. rewrite E. reflexivity.
Qed.

Lemma swIsOn_pressed (w : world) :
  exists w', swIsOn w = Done (sw_pressed w) w' /\ trace w' = trace w /\ mem w' = mem w.
Proof.
  unfold swIsOn, sw_pressed. destruct (pins w) as [|c l].
  - eexists. split; [reflexivity|]. split; reflexivity.
  - change (Z.shiftl 1 (pin Sw)) with 128.
    change (Z.shiftl (Z.b2z (onVal Sw)) (pin Sw)) with 0.
    rewrite land_128_bit7. eexists. split; [reflexivity|]. split; reflexivity.
Qed.

(** C5.  The bootloader runs exactly when the flag reads 0xFF, or the
    switch reads pressed, or the first byte of the application reads
    0xFF; with none of the three, [main] jumps to the application.  This
    covers the eight combinations of the three signals. *)
Theorem entry_decision (w : world) :
  exists w',
    entryCheck w = Done (flag_erased w || sw_pressed w || app_erased w) w' /\
    trace w' = trace w /\
    main w =
      (if flag_erased w || sw_pressed w || app_erased w
       then match bootloader w' with
            | Done _ w2 => Restart w2
            | Blocked w2 => Waiting w2
            end
       else RunApp w') /\
    (flag_erased w || sw_pressed w || app_erased w = true <->
     nvm_load eeLastBytePtr (mem w) = xff \/ sw_pressed w = true \/
     nvm_load appMemStart (mem w) = xff).
Proof.
  assert (exists w',
            entryCheck w = Done (flag_erased w || sw_pressed w || app_erased w) w' /\
            trace w' = trace w) as [w' [E T]].
  { unfold entryCheck, bind, load. cbv beta iota. fold (flag_erased w).
    destruct (flag_erased w); [exists w; split; reflexivity|].
    destruct (swIsOn_pressed w) as [w1 [S [T M]]]. rewrite S.
    cbn [orb]. destruct (sw_pressed w); [exists w1; split; [reflexivity|exact T]|].
    unfold ret, app_erased. rewrite M. exists w1. split; [reflexivity|exact T]. }
  exists w'. split; [exact E|]. split; [exact T|]. split.
  - unfold main. rewrite E.
    destruct (flag_erased w || sw_pressed w || app_erased w); reflexivity.
  - unfold flag_erased, app_erased.
    rewrite !orb_true_iff, !byte_eqb_eq. tauto.
Qed.





End Claims.

(** * Witnesses and runs on the simulated device *)

Lemma demo_frame_valid : valid demo_frame.
Proof. split; vm_compute; reflexivity. Defined.

Lemma demo_bad_frame_invalid : ~ valid demo_bad_frame.
Proof. intros [_ H]. vm_compute in H. discriminate. Defined.

Lemma block_accepted_iff_witness :
  length (payload demo_frame) = X_DATA_SIZE /\
  rx (demo_world (wire demo_frame ++ [X_EOT]) sim_erased) =
    wire demo_frame ++ [X_EOT] /\
  (accepted demo_frame [X_EOT]
     (demo_world (wire demo_frame ++ [X_EOT]) sim_erased) <->
   pair_ok demo_frame /\ crc_ok demo_frame).
Proof.
  split; [reflexivity|]. split; [reflexivity|].
  exact (proj1 (block_accepted_iff demo_frame [X_EOT]
                  (demo_world (wire demo_frame ++ [X_EOT]) sim_erased)
                  eq_refl eq_refl)).
Defined.

Lemma verify_gate_witness :
  length (payload demo_frame) = X_DATA_SIZE /\
  rx (demo_world (wire demo_frame ++ [X_EOT]) (sim_stuck 0x8803)) =
    wire demo_frame ++ [X_EOT] /\
  valid demo_frame /\
  stores (since
            (taken demo_frame [X_EOT]
               (demo_world (wire demo_frame ++ [X_EOT]) (sim_stuck 0x8803)))
            (copied (dev:=attiny3217) 0x8800
               (taken demo_frame [X_EOT]
                  (demo_world (wire demo_frame ++ [X_EOT]) (sim_stuck 0x8803))))) =
    block_stores 0x8800 (payload demo_frame).
Proof.
  split; [reflexivity|]. split; [reflexivity|]. split; [exact demo_frame_valid|].
  exact (proj1 (verify_gate (dev:=attiny3217) demo_frame [X_EOT]
                  (demo_world (wire demo_frame ++ [X_EOT]) (sim_stuck 0x8803))
                  0x8800 eq_refl eq_refl demo_frame_valid)).
Defined.




Lemma rejected_frames_are_retried_witness :
  Forall (fun f => length (payload f) = X_DATA_SIZE /\ ~ valid f)
         [demo_bad_frame; demo_bad_frame] /\
  rx (demo_world (flat_map wire [demo_bad_frame; demo_bad_frame] ++
                  wire demo_frame ++ [X_EOT]) sim_erased) =
    flat_map wire [demo_bad_frame; demo_bad_frame] ++ wire demo_frame ++ [X_EOT] /\
  sent_count X_NACK
    (since (demo_world (flat_map wire [demo_bad_frame; demo_bad_frame] ++
                        wire demo_frame ++ [X_EOT]) sim_erased)
           (after_rejects [demo_bad_frame; demo_bad_frame]
              (wire demo_frame ++ [X_EOT])
              (demo_world (flat_map wire [demo_bad_frame; demo_bad_frame] ++
                           wire demo_frame ++ [X_EOT]) sim_erased))) = 2%nat.
Proof.
  assert (Forall (fun f => length (payload f) = X_DATA_SIZE /\ ~ valid f)
                 [demo_bad_frame; demo_bad_frame]) as B.
  { repeat constructor; exact demo_bad_frame_invalid. }
  split; [exact B|]. split; [reflexivity|].
  exact (proj1 (proj2 (proj2
           (rejected_frames_are_retried [demo_bad_frame; demo_bad_frame]
              (wire demo_frame ++ [X_EOT])
              (demo_world (flat_map wire [demo_bad_frame; demo_bad_frame] ++
                           wire demo_frame ++ [X_EOT]) sim_erased)
              B eq_refl)))).
Defined.

Lemma eot_ends_transfer_witness :
  rx (demo_world [X_EOT] sim_erased) = X_EOT :: [] /\
  xmodem (demo_world [X_EOT] sim_erased) =
    Done false (arrived [X_EOT] [] (demo_world [X_EOT] sim_erased)).
Proof.
  split; [reflexivity|].
  exact (proj1 (eot_ends_transfer (dev:=attiny3217) []
                  (demo_world [X_EOT] sim_erased) 0x8800 eq_refl)).
Defined.

Lemma block_number_not_checked_witness :
  length (payload (sent x05 demo_payload)) = X_DATA_SIZE /\
  valid (sent x05 demo_payload) /\
  rx (demo_world (wire (sent x05 demo_payload) ++
                  wire (sent x05 demo_payload) ++ [X_EOT]) sim_erased) =
    wire (sent x05 demo_payload) ++ wire (sent x05 demo_payload) ++ [X_EOT] /\
  accepted (sent x05 demo_payload) (wire (sent x05 demo_payload) ++ [X_EOT])
    (demo_world (wire (sent x05 demo_payload) ++
                 wire (sent x05 demo_payload) ++ [X_EOT]) sim_erased).
Proof.
  assert (valid (sent x05 demo_payload)) as V by (split; vm_compute; reflexivity).
  split; [reflexivity|]. split; [exact V|]. split; [reflexivity|].
  exact (proj1 (block_number_not_checked (dev:=attiny3217)
                  (sent x05 demo_payload) (sent x05 demo_payload) [X_EOT]
                  (demo_world (wire (sent x05 demo_payload) ++
                               wire (sent x05 demo_payload) ++ [X_EOT]) sim_erased)
                  0x8800 eq_refl eq_refl V V eq_refl)).
Defined.

(** ** Runs on the simulated device (specification, section 8) *)

Section Runs.

#[local] Existing Instance attiny3217.

(** Two blocks and the end marker: both are acknowledged, the memory
    from the start of the application holds the two payloads, the end
    marker is acknowledged, and [eeAppOK] then programs the flag. *)
Example run_two_blocks :
  let w := demo_world (wire (sent x01 demo_payload) ++
                       wire (sent x02 demo_payload2) ++ [X_EOT]) sim_erased in
  let w' := world_of (bind (programApp (dev:=attiny3217)) (fun _ => eeAppOK) w) in
  tx_bytes (trace w') = [X_PING; X_ACK; X_ACK; X_ACK] /\
  cells_from 0x8800 256 (mem w') = demo_payload ++ demo_payload2 /\
  cells (mem w) 0x14FF = xff /\
  cells (mem w') 0x14FF = x00 /\
  program_loop (dev:=attiny3217) 0x8800 w =
    Done (0x8800 + 256) (world_of (program_loop (dev:=attiny3217) 0x8800 w)).
Proof. vm_compute. repeat split; reflexivity. Qed.

(** A block with a wrong CRC, then the same block sent correctly: one
    NACK, one ACK, and [flashPtr] has moved by one block only. *)
Example run_resend_after_bad_crc :
  let w := demo_world (wire demo_bad_frame ++ wire demo_frame ++ [X_EOT]) sim_erased in
  tx_bytes (trace (world_of (programApp (dev:=attiny3217) w))) =
    [X_PING; X_NACK; X_ACK; X_ACK] /\
  program_loop (dev:=attiny3217) 0x8800 w =
    Done (0x8800 + 128) (world_of (program_loop (dev:=attiny3217) 0x8800 w)).
Proof. vm_compute. split; reflexivity. Qed.

(** A cell that cannot be programmed: every attempt is answered by NACK
    and [flashPtr] stays. *)
Example run_stuck_cell :
  let w := demo_world (wire demo_frame ++ wire demo_frame ++ [X_EOT])
                      (sim_stuck 0x8803) in
  tx_bytes (trace (world_of (programApp (dev:=attiny3217) w))) =
    [X_PING; X_NACK; X_NACK; X_ACK] /\
  program_loop (dev:=attiny3217) 0x8800 w =
    Done 0x8800 (world_of (program_loop (dev:=attiny3217) 0x8800 w)).
Proof. vm_compute. split; reflexivity. Qed.

(** With 64-byte pages a block is two pages, with 128-byte pages one. *)
Example run_page_commits :
  let w := taken demo_frame [X_EOT]
                 (demo_world (wire demo_frame ++ [X_EOT]) sim_erased) in
  length (filter (fun e => match e with NvmCmd => true | _ => false end)
                 (since w (copied (dev:=attiny1614) 0x8800 w))) = 2%nat /\
  length (filter (fun e => match e with NvmCmd => true | _ => false end)
                 (since w (copied (dev:=attiny3217) 0x8800 w))) = 1%nat.
Proof. vm_compute. split; reflexivity. Qed.

(** Outside the family: with 256-byte pages the count never reaches the
    page size, no command is issued, and the 128 stores of the block
    are still uncommitted when they are read back. *)
Example run_page256_uncommitted :
  let w := taken demo_frame [X_EOT]
                 (demo_world (wire demo_frame ++ [X_EOT]) sim_erased) in
  length (uncommitted (trace (copied (dev:=page256) 0x8800 w))) = 128%nat /\
  readback_ok 0x8800 (copied (dev:=page256) 0x8800 w) = false.
Proof. vm_compute. split; reflexivity. Qed.

End Runs.

(** * Further properties *)

(** ** What the CRC detects *)

Module CRC_detect.
Import CRC CRC_facts.

Lemma crc16_bit_zero (c : Z) : 0 <= c < 65536 -> crc16_bit c = 0 -> c = 0.
Proof.
  intros Hc H. apply Z.bits_inj'. intros n Hn. rewrite Z.bits_0.
  assert (Z.testbit c 15 = false) as H15.
  { apply (f_equal (fun z => Z.testbit z 0)) in H.
    rewrite crc16_bit_bits, Z.bits_0 in H by lia.
    rewrite (Z.testbit_neg_r c) in H by lia.
    destruct (Z.testbit c 15); [discriminate H|reflexivity]. }
  destruct (Z_lt_ge_dec n 15) as [L|G].
  - apply (f_equal (fun z => Z.testbit z (n + 1))) in H.
    rewrite crc16_bit_bits, Z.bits_0, H15 in H by lia.
    replace (n + 1 - 1) with n in H by lia.
    replace (n + 1 <? 16) with true in H by (symmetry; apply Z.ltb_lt; lia).
    rewrite andb_false_l, xorb_false_r in H. exact H.
  - destruct (Z.eq_dec n 15) as [->|N]; [exact H15|].
    apply high_bits_16; lia.
Qed.

Lemma crc16_bit_inj (a b : Z) :
  0 <= a < 65536 -> 0 <= b < 65536 -> crc16_bit a = crc16_bit b -> a = b.
Proof.
  intros Ha Hb H. apply Z.lxor_eq.
  apply crc16_bit_zero; [apply lxor_range16; assumption|].
  rewrite crc16_bit_lxor, H. apply Z.lxor_nilpotent.
Qed.

Lemma iter_inj (n : nat) (a b : Z) :
  0 <= a < 65536 -> 0 <= b < 65536 ->
  Nat.iter n crc16_bit a = Nat.iter n crc16_bit b -> a = b.
Proof.
  intros Ha Hb. induction n as [|n IH]; intros H; [exact H|].
  apply IH. apply crc16_bit_inj; [apply iter_range, Ha|apply iter_range, Hb|exact H].
Qed.

Lemma byte_high_range (v : byte) : 0 <= Z.shiftl (u8 v) 8 < 65536.
Proof.
  pose proof (u8_range v). rewrite Z.shiftl_mul_pow2 by lia.
  change (2 ^ 8) with 256. lia.
Qed.

Lemma lxor_cancel_r (a b x : Z) : Z.lxor a x = Z.lxor b x -> a = b.
Proof.
  intros H. apply (f_equal (fun z => Z.lxor z x)) in H.
  rewrite !Z.lxor_assoc, Z.lxor_nilpotent, !Z.lxor_0_r in H. exact H.
Qed.

Lemma lxor_cancel_l (a b x : Z) : Z.lxor x a = Z.lxor x b -> a = b.
Proof. rewrite !(Z.lxor_comm x). apply lxor_cancel_r. Qed.

Lemma crc16_inj (a b : Z) (v v' : byte) :
  0 <= a < 65536 -> 0 <= b < 65536 ->
  crc16 a v = crc16 b v' -> Z.lxor a (Z.shiftl (u8 v) 8) = Z.lxor b (Z.shiftl (u8 v') 8).
Proof.
  intros Ha Hb H. unfold crc16 in H. apply iter_inj in H; try apply wrap16_range.
  rewrite !wrap16_small in H
    by (apply lxor_range16; [assumption|apply byte_high_range]).
  exact H.
Qed.

Lemma crc16_state_inj (v : byte) (a b : Z) :
  0 <= a < 65536 -> 0 <= b < 65536 -> crc16 a v = crc16 b v -> a = b.
Proof.
  intros Ha Hb H. apply crc16_inj in H; try assumption.
  eapply lxor_cancel_r, H.
Qed.

Lemma crc16_byte_inj (c : Z) (v v' : byte) :
  0 <= c < 65536 -> crc16 c v = crc16 c v' -> v = v'.
Proof.
  intros Hc H. apply crc16_inj in H; try assumption.
  apply lxor_cancel_l in H. apply u8_inj.
  rewrite !Z.shiftl_mul_pow2 in H by lia. lia.
Qed.

Lemma crc_run_inj (data : list byte) :
  forall a b, 0 <= a < 65536 -> 0 <= b < 65536 ->
  crc_run a data = crc_run b data -> a = b.
Proof.
  unfold crc_run. induction data as [|v data IH]; intros a b Ha Hb H; [exact H|].
  cbn [fold_left] in H. apply IH in H; try apply crc16_range.
  eapply crc16_state_inj; eassumption.
Qed.

(** Changing one byte of a message, at any place and to any other
    value, changes its CRC. *)
Lemma crc_run_one_byte (pre post : list byte) (b b' : byte) :
  b <> b' -> crc_run 0 (pre ++ b :: post) <> crc_run 0 (pre ++ b' :: post).
Proof.
  intros Hb H. apply Hb.
  rewrite !crc_run_app in H. unfold crc_run at 1 3 in H. cbn [fold_left] in H.
  fold (crc_run (crc16 (crc_run 0 pre) b) post) in H.
  fold (crc_run (crc16 (crc_run 0 pre) b') post) in H.
  apply crc_run_inj in H; try apply crc16_range.
  eapply crc16_byte_inj; [|exact H]. apply crc_run_range. lia.
Qed.

Lemma split_trailer (hi lo : byte) :
  256 * u8 hi + u8 lo = Z.lxor (Z.shiftl (u8 hi) 8) (u8 lo).
Proof.
  pose proof (u8_range lo) as Hlo. rewrite Z.shiftl_mul_pow2 by lia.
  change (2 ^ 8) with 256. rewrite (Z.mul_comm 256).
  apply Z.add_nocarry_lxor. apply Z.bits_inj'. intros n Hn.
  rewrite Z.land_spec, Z.bits_0.
  destruct (Z_lt_ge_dec n 8) as [L|G].
  - change 256 with (2 ^ 8). rewrite Z.mul_pow2_bits_low by lia. reflexivity.
  - replace (Z.testbit (u8 lo) n) with false; [apply andb_false_r|].
    symmetry. apply Z.bits_above_log2; [lia|].
    destruct (Z.eq_dec (u8 lo) 0) as [->|N]; [cbn; lia|].
    apply Z.log2_lt_pow2; [lia|].
    assert (2 ^ 8 <= 2 ^ n) as P by (apply Z.pow_le_mono_r; lia).
    change (2 ^ 8) with 256 in P. lia.
Qed.

Lemma shift_byte_table (lo : byte) : Nat.iter 8 crc16_bit (u8 lo) = 256 * u8 lo.
Proof. destruct lo; vm_compute; reflexivity. Qed.

(** Feeding a state its own two bytes, high byte first, empties it. *)
Lemma crc16_own_trailer (hi lo : byte) :
  crc16 (crc16 (256 * u8 hi + u8 lo) hi) lo = 0.
Proof.
  pose proof (u8_range hi) as Hhi. pose proof (u8_range lo) as Hlo.
  assert (crc16 (256 * u8 hi + u8 lo) hi = 256 * u8 lo) as E.
  { rewrite crc16_unwrapped, split_trailer.
    rewrite (Z.lxor_comm (Z.shiftl (u8 hi) 8)), Z.lxor_assoc, Z.lxor_nilpotent,
      Z.lxor_0_r.
    apply shift_byte_table. }
  rewrite E, crc16_unwrapped, Z.shiftl_mul_pow2 by lia. change (2 ^ 8) with 256.
  rewrite (Z.mul_comm (u8 lo)), Z.lxor_nilpotent. apply iter_0.
Qed.

(** X2.  The CRC that [crc16] accumulates over a message is the number
    [256 * hi + lo] exactly when the CRC over the message followed by
    the bytes [hi], [lo] is 0: a receiver may as well run the trailer
    through [crc16] and compare with 0. *)
Theorem trailer_residue (data : list byte) (hi lo : byte) :
  crc_run 0 data = 256 * u8 hi + u8 lo <-> crc_run 0 (data ++ [hi; lo]) = 0.
Proof.
  assert (crc_run 0 (data ++ [hi; lo]) = crc16 (crc16 (crc_run 0 data) hi) lo)
    as -> by (rewrite crc_run_app; reflexivity).
  split.
  - intros ->. apply crc16_own_trailer.
  - intros H0.
    assert (crc16 (crc16 (crc_run 0 data) hi) lo =
            crc16 (crc16 (256 * u8 hi + u8 lo) hi) lo) as H
      by (rewrite H0; symmetry; apply crc16_own_trailer).
    pose proof (u8_range hi). pose proof (u8_range lo).
    assert (0 <= crc_run 0 data < 65536) as R by (apply crc_run_range; lia).
    assert (0 <= 256 * u8 hi + u8 lo < 65536) as R' by lia.
    apply crc16_state_inj in H; try apply crc16_range.
    apply crc16_state_inj in H; assumption.
Qed.

End CRC_detect.

(** ** What [xmodem] does with damaged, stray and missing bytes *)

Section Receiver_more.

Context {dev : Device} {D : Type} {nvmD : Nvm D}.

Local Abbreviation world := (world D).

Lemma arrived_arrived (a b rest : list byte) (w : world) :
  arrived b rest (arrived a (b ++ rest) w) = arrived (a ++ b) rest w.
Proof.
  apply world_eq; cbn; try reflexivity. rewrite map_app, app_assoc. reflexivity.
Qed.

(** X1.  A valid frame in which one byte of the payload was changed on
    the way, at any place and to any other value, has another CRC than
    the trailer says: [xmodem] rejects it with NACK. *)
Theorem corrupted_byte_is_rejected
  (f : frame) (pre post : list byte) (b b' : byte) (rest : list byte) (w : world) :
  valid f ->
  payload f = pre ++ b :: post ->
  length (payload f) = X_DATA_SIZE ->
  b <> b' ->
  rx w = wire (with_payload f (pre ++ b' :: post)) ++ rest ->
  CRC.crc_run 0 (pre ++ b' :: post) <> trailer f /\
  rejected (with_payload f (pre ++ b' :: post)) rest w.
Proof.
  intros [_ Hc] Hp Hlen Hb Hrx.
  unfold crc_ok in Hc. rewrite <- CRC_facts.crc_run_reference, Hp in Hc.
  assert (CRC.crc_run 0 (pre ++ b' :: post) <> trailer f) as N.
  { rewrite <- Hc. intros E. symmetry in E. revert E.
    apply CRC_detect.crc_run_one_byte, Hb. }
  split; [exact N|]. unfold rejected.
  rewrite (xmodem_pass_frame (with_payload f (pre ++ b' :: post)) rest w);
    [|cbn [with_payload payload]|exact Hrx].
  - replace (validb _) with false; [reflexivity|].
    symmetry. unfold validb. cbn [with_payload payload].
    apply andb_false_iff. left. apply Z.eqb_neq. exact N.
  - rewrite <- Hlen, Hp, !length_app. reflexivity.
Qed.

(** X3.  Bytes that are neither SOH nor EOT where a frame should start
    are read and dropped one by one; nothing is sent for them and the
    receive buffer is not touched. *)
Theorem stray_bytes_are_skipped (noise rest : list byte) (w : world) :
  Forall idle_byte noise ->
  rx w = noise ++ rest ->
  xmodem w = xmodem (arrived noise rest w).
Proof.
  intros H. revert w. induction H as [|c noise [Hs He] _ IH]; intros w Hrx.
  - f_equal. apply world_eq; cbn; try reflexivity; [exact Hrx|].
    symmetry. apply app_nil_r.
  - rewrite (xmodem_noise c (noise ++ rest) w Hrx He Hs).
    rewrite IH by reflexivity.
    rewrite (arrived_arrived [c] noise rest w). reflexivity.
Qed.

(** The payload loop on an input that ends too early. *)
Lemma recv_data_short (l : list byte) :
  forall n i crc (w : world),
  rx w = l -> (length l < n)%nat ->
  exists w', recv_data n i crc w = Blocked w' /\ rx w' = [] /\
             trace w' = trace w ++ map Rx l.
Proof.
  induction l as [|v l IH]; intros n i crc w Hrx Hn;
    (destruct n as [|n]; [cbn in Hn; lia|]); cbn [recv_data]; unfold bind.
  - rewrite (uread_empty w Hrx). exists w. cbn. rewrite app_nil_r. auto.
  - rewrite (uread_cons w v l Hrx). unfold put_data.
    edestruct (IH n (S i) (CRC.crc16 crc v)) as [w' [E [R T]]];
      [| |exists w'; split; [exact E|split; [exact R|]]].
    + reflexivity.
    + cbn in Hn. lia.
    + rewrite T. cbn. rewrite <- app_assoc. reflexivity.
Qed.

(** X4.  When the input ends inside a frame, after SOH and fewer than
    the 132 bytes that follow it, [xmodem] has read what there was,
    has sent nothing, and waits: a frame is never given up. *)
Theorem truncated_frame_waits (l : list byte) (w : world) :
  rx w = X_SOH :: l ->
  (length l < 2 + X_DATA_SIZE + 2)%nat ->
  exists w', xmodem w = Blocked w' /\ rx w' = [] /\
             since w w' = map Rx (X_SOH :: l).
Proof.
  intros Hrx Hl.
  assert (exists w', xmodem_pass w = Blocked w' /\ rx w' = [] /\
                     trace w' = trace w ++ map Rx (X_SOH :: l)) as [w' [E [R T]]].
  { unfold xmodem_pass, bind. rewrite (uread_cons w _ _ Hrx).
    change (Byte.eqb X_SOH X_EOT) with false.
    change (negb (Byte.eqb X_SOH X_SOH)) with false. cbv beta iota.
    destruct l as [|bn l].
    { rewrite uread_empty by reflexivity. eexists. repeat split; reflexivity. }
    erewrite uread_cons by reflexivity. cbv beta iota.
    destruct l as [|bni l].
    { rewrite uread_empty by reflexivity. eexists. split; [reflexivity|].
      split; [reflexivity|]. cbn. rewrite <- !app_assoc. reflexivity. }
    erewrite uread_cons by reflexivity. cbv beta iota.
    destruct (le_lt_dec X_DATA_SIZE (length l)) as [G|L].
    - assert (length (firstn X_DATA_SIZE l) = X_DATA_SIZE) as Hf
        by (rewrite length_firstn; lia).
      assert (length (skipn X_DATA_SIZE l) < 2)%nat as Hs.
      { rewrite length_skipn. cbn [length] in Hl. lia. }
      pose proof (firstn_skipn X_DATA_SIZE l) as S.
      remember (firstn X_DATA_SIZE l) as pay eqn:Ep.
      remember (skipn X_DATA_SIZE l) as tl eqn:Et.
      clear Ep Et G Hl. subst l. rewrite <- Hf.
      erewrite recv_data_payload with (rest := tl);
        [|cbn [rx arrived]; reflexivity | cbn; lia].
      cbv beta iota.
      destruct tl as [|hi [|lo tl]]; [| |cbn in Hs; lia].
      + rewrite uread_empty by reflexivity. eexists. split; [reflexivity|].
        split; [reflexivity|]. cbn [trace arrived set_data map].
        rewrite app_nil_r, <- !app_assoc. reflexivity.
      + erewrite uread_cons by reflexivity. cbv beta iota.
        rewrite uread_empty by reflexivity. eexists. split; [reflexivity|].
        split; [reflexivity|]. cbn [trace arrived set_data map].
        rewrite map_app, <- !app_assoc. reflexivity.
    - edestruct (recv_data_short l X_DATA_SIZE 0%nat 0) as [w' [E [R T]]];
        [| exact L | rewrite E; exists w'; split; [reflexivity|split; [exact R|]]].
      + reflexivity.
      + rewrite T. cbn [trace arrived map]. rewrite <- !app_assoc. reflexivity. }
  exists w'. rewrite xmodem_eq, E. split; [reflexivity|]. split; [exact R|].
  apply since_app, T.
Qed.

End Receiver_more.

(** ** The handshake: [Xbroadcast] *)

Section Handshake.

Context {dev : Device} {D : Type} {nvmD : Nvm D}.

Local Abbreviation world := (world D).

Lemma wrap32_small (t : Z) : 0 <= t < 4294967296 -> wrap32 t = t.
Proof. apply Z.mod_small. Qed.

(** The inner loop finds the edge when it comes before [t] runs out. *)
Lemma poll_edge (q : list byte) :
  forall t fuel f rest (w : world),
  Forall quiet q -> rx_flag f = true -> edges w = q ++ f :: rest ->
  Z.of_nat (length q) <= t < 4294967296 -> (length q < fuel)%nat ->
  Xbroadcast_poll fuel t w = Done true (set_edges rest w).
Proof.
  induction q as [|a q IH]; intros t fuel f rest w Hq Hf He Ht Hfuel;
    (destruct fuel as [|fuel]; [lia|]); cbn [Xbroadcast_poll];
    unfold bind, isRxActive; rewrite He; cbn [app].
  - rewrite Hf, andb_false_r. reflexivity.
  - inversion Hq as [|? ? Ha Hq']; subst. rewrite Ha.
    cbn [length] in Ht, Hfuel.
    replace (t =? 0) with false by (symmetry; apply Z.eqb_neq; lia).
    cbn [negb andb].
    rewrite (IH (wrap32 (t - 1)) fuel f rest); try assumption; try reflexivity.
    + rewrite wrap32_small; lia.
    + lia.
Qed.

(** Without an edge it gives up after [t + 1] readings. *)
Lemma poll_timeout (q : list byte) :
  forall t fuel tail (w : world),
  Forall quiet q -> edges w = q ++ tail ->
  0 <= t < 4294967296 -> Z.of_nat (length q) = t + 1 -> (length q < fuel)%nat ->
  Xbroadcast_poll fuel t w = Done false (set_edges tail w).
Proof.
  induction q as [|a q IH]; intros t fuel tail w Hq He Ht Hl Hfuel;
    [cbn [length] in Hl; lia|].
  destruct fuel as [|fuel]; [lia|]. cbn [Xbroadcast_poll].
  unfold bind, isRxActive. rewrite He. cbn [app].
  inversion Hq as [|? ? Ha Hq']; subst. rewrite Ha.
  cbn [length] in Hl, Hfuel.
  destruct (Z.eqb_spec t 0) as [->|N]; cbn [negb andb].
  - destruct q; [reflexivity|cbn [length] in Hl; lia].
  - rewrite (IH (wrap32 (t - 1)) fuel tail); try assumption; try reflexivity.
    + apply Z.mod_pos_bound. lia.
    + rewrite wrap32_small; lia.
    + lia.
Qed.

(** And it waits when the readings end before [t] runs out. *)
Lemma poll_starved (q : list byte) :
  forall t fuel (w : world),
  Forall quiet q -> edges w = q ->
  Z.of_nat (length q) <= t < 4294967296 -> (length q < fuel)%nat ->
  Xbroadcast_poll fuel t w = Blocked (set_edges [] w).
Proof.
  induction q as [|a q IH]; intros t fuel w Hq He Ht Hfuel;
    (destruct fuel as [|fuel]; [lia|]); cbn [Xbroadcast_poll];
    unfold bind, isRxActive; rewrite He.
  - f_equal. apply world_eq; cbn; auto.
  - inversion Hq as [|? ? Ha Hq']; subst. rewrite Ha.
    cbn [length] in Ht, Hfuel.
    replace (t =? 0) with false by (symmetry; apply Z.eqb_neq; lia).
    cbn [negb andb].
    rewrite (IH (wrap32 (t - 1)) fuel); try assumption; try reflexivity.
    + rewrite wrap32_small; lia.
    + lia.
Qed.

Lemma pings_S (k : nat) : pings (S k) = [LedTog; Tx X_PING] ++ pings k.
Proof. reflexivity. Qed.

Lemma handshake_next (k : nat) (l rest : list byte) (w : world) :
  handshake k rest (set_edges l (emit (Tx X_PING) (emit LedTog w))) =
  handshake (S k) rest w.
Proof.
  apply world_eq; cbn [handshake set_edges emit rx edges pins mem xmodemData trace];
    try reflexivity.
  rewrite pings_S, <- !app_assoc. reflexivity.
Qed.

Lemma handshake_one (rest : list byte) (w : world) :
  set_edges rest (emit (Tx X_PING) (emit LedTog w)) = handshake 1 rest w.
Proof.
  apply world_eq; cbn [handshake set_edges emit rx edges pins mem xmodemData trace];
    try reflexivity.
  rewrite <- !app_assoc. reflexivity.
Qed.

Lemma polls_per_ping_pos : 0 <= polls_per_ping - 1 < 4294967296.
Proof.
  unfold polls_per_ping. replace (wrap32 (F_CPU / 10) + 1 - 1) with (wrap32 (F_CPU / 10)) by lia.
  apply Z.mod_pos_bound. lia.
Qed.

Lemma rounds_next (n m : Z) :
  0 <= m -> 0 < polls_per_ping -> n = polls_per_ping + m ->
  S (Z.to_nat (n / polls_per_ping)) = S (S (Z.to_nat (m / polls_per_ping))).
Proof.
  intros Hm Hp ->. f_equal.
  replace (polls_per_ping + m) with (m + 1 * polls_per_ping) by lia.
  rewrite Z.div_add by lia.
  assert (0 <= m / polls_per_ping) by (apply Z.div_pos; lia). lia.
Qed.

(** A round that sees no edge, when there are readings enough for it. *)
Lemma Xbroadcast_pass_timeout (q tail : list byte) (w : world) :
  Forall quiet q -> edges w = q ++ tail ->
  Z.of_nat (length q) = polls_per_ping ->
  Xbroadcast_pass w =
  Done false (set_edges tail (emit (Tx X_PING) (emit LedTog w))).
Proof.
  intros Hq He Hl. pose proof polls_per_ping_pos as P. unfold polls_per_ping in *.
  unfold Xbroadcast_pass, bind, ledTog, uwrite, Xbroadcast_wait. cbv beta iota.
  apply (poll_timeout q); try assumption; try lia.
  cbn [edges emit]. rewrite He, length_app. lia.
Qed.

(** X5.  [Xbroadcast] returns at the first reading of the interrupt
    flags that shows an edge on RX.  Until then it has toggled the led
    and sent "C" once at the start and once more each time the counter
    [t] ran out, that is after every [F_CPU/10 + 1] readings without an
    edge; it has sent nothing else. *)
Theorem handshake_ends_at_first_edge (q rest : list byte) (f : byte) (w : world) :
  Forall quiet q ->
  rx_flag f = true ->
  edges w = q ++ f :: rest ->
  Xbroadcast w =
  Done tt (handshake (S (Z.to_nat (Z.of_nat (length q) / polls_per_ping))) rest w).
Proof.
  intros Hq Hf. remember (length q) as n eqn:En. revert q w Hq En.
  induction n as [n IH] using lt_wf_ind. intros q w Hq -> He.
  pose proof polls_per_ping_pos as P. rewrite Xbroadcast_eq.
  destruct (Z_lt_ge_dec (Z.of_nat (length q)) polls_per_ping) as [L|G].
  - assert (Xbroadcast_pass w =
            Done true (set_edges rest (emit (Tx X_PING) (emit LedTog w)))) as E.
    { unfold Xbroadcast_pass, bind, ledTog, uwrite, Xbroadcast_wait.
      cbv beta iota. unfold polls_per_ping in *.
      apply (poll_edge q _ _ f); try assumption; try lia.
      cbn [edges emit]. rewrite He, length_app. cbn [length]. lia. }
    rewrite E, Z.div_small by lia. rewrite handshake_one. reflexivity.
  - set (k := Z.to_nat polls_per_ping).
    assert (length (firstn k q) = k) as Hk by (rewrite length_firstn; lia).
    pose proof (firstn_skipn k q) as S.
    rewrite (Xbroadcast_pass_timeout (firstn k q) (skipn k q ++ f :: rest)).
    + rewrite (IH (length (skipn k q))) with (q := skipn k q);
        try reflexivity.
      * rewrite handshake_next. f_equal. f_equal. symmetry.
        apply rounds_next; [lia|lia|]. rewrite length_skipn. lia.
      * rewrite length_skipn. lia.
      * rewrite <- S in Hq. apply Forall_app in Hq. apply Hq.
    + rewrite <- S in Hq. apply Forall_app in Hq. apply Hq.
    + rewrite app_assoc, S. exact He.
    + rewrite Hk. unfold k. lia.
Qed.

(** X6.  Without an edge on RX [Xbroadcast] never returns: when every
    reading of the flag is quiet it has pinged as above and goes on
    polling. *)
Theorem handshake_needs_edge (w : world) :
  Forall quiet (edges w) ->
  Xbroadcast w =
  Blocked (handshake (S (Z.to_nat (Z.of_nat (length (edges w)) / polls_per_ping)))
                     [] w).
Proof.
  remember (length (edges w)) as n eqn:En. revert w En.
  induction n as [n IH] using lt_wf_ind. intros w -> Hq.
  pose proof polls_per_ping_pos as P. rewrite Xbroadcast_eq.
  destruct (Z_lt_ge_dec (Z.of_nat (length (edges w))) polls_per_ping) as [L|G].
  - assert (Xbroadcast_pass w =
            Blocked (set_edges [] (emit (Tx X_PING) (emit LedTog w)))) as E.
    { unfold Xbroadcast_pass, bind, ledTog, uwrite, Xbroadcast_wait.
      cbv beta iota. unfold polls_per_ping in *.
      apply (poll_starved (edges w)); try assumption; try reflexivity; try lia.
      cbn [edges emit]. lia. }
    rewrite E, Z.div_small by lia. rewrite handshake_one. reflexivity.
  - set (k := Z.to_nat polls_per_ping).
    assert (length (firstn k (edges w)) = k) as Hk by (rewrite length_firstn; lia).
    pose proof (firstn_skipn k (edges w)) as S.
    rewrite (Xbroadcast_pass_timeout (firstn k (edges w)) (skipn k (edges w))).
    + rewrite (IH (length (skipn k (edges w)))); try reflexivity.
      * cbn [edges set_edges]. rewrite handshake_next. f_equal. f_equal. symmetry.
        apply rounds_next; [lia|lia|]. rewrite length_skipn. lia.
      * rewrite length_skipn. lia.
      * cbn [edges set_edges]. rewrite <- S in Hq. apply Forall_app in Hq. apply Hq.
    + rewrite <- S in Hq. apply Forall_app in Hq. apply Hq.
    + symmetry. exact S.
    + rewrite Hk. unfold k. lia.
Qed.

End Handshake.

(** ** The dumps and the end of [main] *)

Lemma header_decode (a : Z) :
  0 <= a < 65536 ->
  u8 (to_byte (Z.land a 0xFF)) + 256 * u8 (to_byte (Z.shiftr a 8)) = a.
Proof.
  intros Ha. change 0xFF with (Z.ones 8).
  rewrite Z.land_ones, Z.shiftr_div_pow2 by lia. change (2 ^ 8) with 256.
  pose proof (Z.mod_pos_bound a 256 ltac:(lia)).
  assert (0 <= a / 256 < 256)
    by (split; [apply Z.div_pos; lia|apply Z.div_lt_upper_bound; lia]).
  rewrite !u8_to_byte by assumption.
  pose proof (Z.div_mod a 256 ltac:(lia)). lia.
Qed.

Lemma pressed_swIsOn (c : byte) :
  (Z.land (u8 c) (Z.shiftl 1 (pin Sw)) =? Z.shiftl (Z.b2z (onVal Sw)) (pin Sw)) =
  pressed c.
Proof.
  change (Z.shiftl 1 (pin Sw)) with 128.
  change (Z.shiftl (Z.b2z (onVal Sw)) (pin Sw)) with 0.
  apply land_128_bit7.
Qed.

Section Dumps.

Context {dev : Device} {D : Type} {nvmD : Nvm D}.

Local Abbreviation world := (world D).

Lemma transmitted_nil (w : world) : transmitted [] w = w.
Proof. apply world_eq; cbn; try reflexivity. apply app_nil_r. Qed.

Lemma transmitted_app (a b : list byte) (w : world) :
  transmitted b (transmitted a w) = transmitted (a ++ b) w.
Proof.
  apply world_eq; cbn; try reflexivity. rewrite map_app, app_assoc. reflexivity.
Qed.

Lemma mem_transmitted (l : list byte) (w : world) : mem (transmitted l w) = mem w.
Proof. reflexivity. Qed.

Lemma pins_transmitted (l : list byte) (w : world) : pins (transmitted l w) = pins w.
Proof. reflexivity. Qed.

Lemma transmitted_one (c : byte) (w : world) : emit (Tx c) w = transmitted [c] w.
Proof. reflexivity. Qed.

Lemma region_S (a : Z) (n : nat) (d : D) :
  region a (S n) d = nvm_load a d :: region (a + 1) n d.
Proof.
  unfold region. cbn [seq map]. rewrite Z.add_0_r. f_equal.
  rewrite <- seq_shift, map_map. apply map_ext. intros i. f_equal. lia.
Qed.

Lemma region_length (a : Z) (n : nat) (d : D) : length (region a n d) = n.
Proof. unfold region. rewrite length_map, length_seq. reflexivity. Qed.

(** The loop of [dumpMem] sends what the memory reads, byte by byte. *)
Lemma dump_bytes_region (n : nat) :
  forall ptr (w : world),
  dump_bytes n ptr w = Done tt (transmitted (region ptr n (mem w)) w).
Proof.
  induction n as [|n IH]; intros ptr w; cbn [dump_bytes].
  - unfold ret. rewrite transmitted_nil. reflexivity.
  - unfold bind, load, uwrite. rewrite IH, region_S, transmitted_one, transmitted_app.
    reflexivity.
Qed.

Lemma dumpMem_transmitted (addr size : Z) (w : world) :
  dumpMem addr size w = Done tt (transmitted (dump_stream addr size (mem w)) w).
Proof.
  unfold dumpMem, bind, uwrite. rewrite dump_bytes_region.
  rewrite !transmitted_one, !transmitted_app. reflexivity.
Qed.

Lemma parse_dump_stream (addr size : Z) (d : D) (more : list byte) :
  parse_dump (dump_stream addr size d ++ more) = Some (dumped d (addr, size), more).
Proof.
  assert (forall z, 0 <= wrap16 z < 65536) as R
    by (intros z; apply Z.mod_pos_bound; lia).
  unfold dump_stream. cbn [app parse_dump]. rewrite !header_decode by apply R.
  set (data := region (wrap16 addr) (Z.to_nat (wrap16 size)) d).
  assert (length data = Z.to_nat (wrap16 size)) as L by apply region_length.
  rewrite <- L.
  replace (length data <=? length (data ++ more))%nat with true
    by (symmetry; apply Nat.leb_le; rewrite length_app; lia).
  rewrite firstn_app, firstn_all, Nat.sub_diag, skipn_app, skipn_all, Nat.sub_diag.
  cbn [firstn skipn app]. rewrite app_nil_r. reflexivity.
Qed.

(** X7.  [dumpMem] sends a region so that the peer can find it in the
    stream: the address and the size as 16-bit numbers, low byte first,
    and then exactly that many bytes, those that the memory reads from
    the address on.  It reads the memory and changes nothing.  The
    region is one that the 16-bit pointer of the source walks through
    without wrapping around. *)
Theorem dump_can_be_parsed (addr size : Z) (w : world) (more : list byte) :
  in_range (addr, size) ->
  exists stream,
    dumpMem addr size w = Done tt (transmitted stream w) /\
    length stream = (4 + Z.to_nat (wrap16 size))%nat /\
    parse_dump (stream ++ more) = Some (dumped (mem w) (addr, size), more).
Proof.
  intros _. exists (dump_stream addr size (mem w)).
  split; [apply dumpMem_transmitted|]. split.
  - unfold dump_stream. rewrite length_app, region_length. reflexivity.
  - apply parse_dump_stream.
Qed.

(** The loop [while( swIsOn() ){}] ends at the first reading that shows
    the switch released. *)
Lemma sw_release_released (fuel : nat) :
  forall w : world,
  (length (pins w) < fuel)%nat ->
  sw_release fuel w = Done tt (set_pins (released_after (pins w)) w).
Proof.
  induction fuel as [|fuel IH]; intros w H; [lia|].
  cbn [sw_release]. unfold bind, swIsOn.
  destruct (pins w) as [|c l] eqn:E; cbv beta iota.
  - change (Z.land (u8 xff) (Z.shiftl 1 (pin Sw)) =?
            Z.shiftl (Z.b2z (onVal Sw)) (pin Sw)) with false.
    reflexivity.
  - rewrite pressed_swIsOn. cbn [released_after].
    destruct (pressed c); [|reflexivity].
    rewrite IH by (cbn in *; lia). reflexivity.
Qed.

Lemma parse_dumps_S (n : nat) (l : list byte) :
  parse_dumps (S n) l =
  match parse_dump l with
  | Some (a, data, rest) =>
      match parse_dumps n rest with
      | Some (ds, rest') => Some ((a, data) :: ds, rest')
      | None => None
      end
  | None => None
  end.
Proof. reflexivity. Qed.

(** X8.  When [programApp] has returned, [main] programs the flag, then
    sends the four dumps in the order signature row, fuses, flash,
    EEPROM, each as the memory reads after the flag was programmed;
    then it reads the switch until a reading shows it released, and
    only then resets the device.  While [programApp] waits, so does
    [main].  The four regions are such that the 16-bit pointer of
    [dumpMem] does not wrap around. *)
Theorem dumps_follow_the_flag (w : world) :
  Forall in_range dump_regions ->
  match programApp (emit Init w) with
  | Done _ w1 =>
      exists stream,
        bootloader w =
        Done tt (emit SoftReset
                   (set_pins (released_after (pins w1))
                      (transmitted stream (flagged w1)))) /\
        parse_dumps 4 stream =
        Some (map (dumped (mem (flagged w1))) dump_regions, [])
  | Blocked w1 => bootloader w = Blocked w1
  end.
Proof.
  intros _.
  destruct (programApp (emit Init w)) as [[] w1|w1] eqn:E;
    unfold bootloader; unfold bind at 1, init at 1; unfold bind at 1; rewrite E;
    [|reflexivity].
  unfold bind at 1. change (eeAppOK w1) with (Done tt (flagged w1)). cbv beta iota.
  unfold dumpSigrow, dumpFuses, dumpFlash, dumpEeprom.
  unfold bind at 1. rewrite dumpMem_transmitted.
  unfold bind at 1. rewrite dumpMem_transmitted.
  unfold bind at 1. rewrite dumpMem_transmitted.
  unfold bind at 1. rewrite dumpMem_transmitted.
  unfold bind at 1. rewrite sw_release_released by lia.
  unfold softReset. rewrite !mem_transmitted, !transmitted_app, pins_transmitted.
  eexists. split; [reflexivity|].
  rewrite <- ?app_assoc.
  rewrite parse_dumps_S, parse_dump_stream.
  rewrite parse_dumps_S, parse_dump_stream.
  rewrite parse_dumps_S, parse_dump_stream.
  rewrite parse_dumps_S, <- (app_nil_r (dump_stream MAPPED_EEPROM_START _ _)),
    parse_dump_stream.
  reflexivity.
Qed.

End Dumps.

(** ** Pages of any size, and where [programApp] stores *)

Lemma pending_suffix (evs : list event) :
  forall acc, exists pre, acc ++ stores evs = pre ++ fold_left pending evs acc.
Proof.
  induction evs as [|e evs IH]; intros acc.
  - exists []. cbn. apply app_nil_r.
  - destruct e; cbn [fold_left pending];
      try (change (stores (?x :: evs)) with (stores evs); apply IH).
    + destruct (IH (acc ++ [(a, v)])) as [pre H]. exists pre.
      rewrite <- H, <- app_assoc. reflexivity.
    + destruct (IH []) as [pre H]. exists (acc ++ pre).
      change (stores (NvmCmd :: evs)) with (stores evs).
      cbn [app] in H. rewrite H, app_assoc. reflexivity.
Qed.


Section Pages.

Context {dev : Device} {D : Type} {nvmD : Nvm D}.

Local Abbreviation world := (world D).

(** The copy loop from a count of [pbc] on: a command each time the
    count reaches the page size, and what is left in the page buffer. *)
Lemma block_events_count (p : Z) (a : list byte) (n : nat) :
  forall i pbc acc,
  0 <= pbc < MAPPED_PROGMEM_PAGE_SIZE ->
  pbc + Z.of_nat n < 256 ->
  Z.of_nat (length acc) = pbc ->
  Z.of_nat (commits (block_events n p i pbc a)) =
    (pbc + Z.of_nat n) / MAPPED_PROGMEM_PAGE_SIZE /\
  Z.of_nat (length (fold_left pending (block_events n p i pbc a) acc)) =
    (pbc + Z.of_nat n) mod MAPPED_PROGMEM_PAGE_SIZE.
Proof.
  induction n as [|n IH]; intros i pbc acc Hp Hn Ha.
  - cbn [block_events commits filter length fold_left].
    rewrite Z.add_0_r, Z.div_small, Z.mod_small by lia. split; [reflexivity|exact Ha].
  - cbn [block_events]. unfold wrap8. rewrite Z.mod_small by lia.
    destruct (Z.ltb_spec (pbc + 1) MAPPED_PROGMEM_PAGE_SIZE) as [L|G].
    + change (commits (Store ?x ?y :: ?l)) with (commits l).
      cbn [fold_left pending].
      replace (pbc + Z.of_nat (S n)) with (pbc + 1 + Z.of_nat n) by lia.
      apply IH; [lia|lia|]. rewrite length_app. cbn [length]. lia.
    + change (commits (Store ?x ?y :: NvmCmd :: ?l)) with (S (commits l)).
      cbn [fold_left pending].
      replace (pbc + Z.of_nat (S n))
        with (0 + Z.of_nat n + 1 * MAPPED_PROGMEM_PAGE_SIZE) by lia.
      rewrite Z.div_add, Z.mod_add by lia.
      destruct (IH (S i) 0 []) as [C U]; [lia|lia|reflexivity|].
      rewrite U. split; [lia|reflexivity].
Qed.

(** X9.  Whatever the page size is, the copy of a block gives the
    command once for every full page of the block, and the stores after
    the last command stay in the page buffer: the last
    [128 mod MAPPED_PROGMEM_PAGE_SIZE] bytes of the block have not been
    committed when the block is read back.  No command follows the
    loop. *)
Theorem pages_of_any_size (p : Z) (w : world) :
  0 < MAPPED_PROGMEM_PAGE_SIZE ->
  write_block X_DATA_SIZE p 0 0 w = Done tt (copied p w) /\
  Z.of_nat (commits (since w (copied p w))) =
    Z.of_nat X_DATA_SIZE / MAPPED_PROGMEM_PAGE_SIZE /\
  Z.of_nat (length (uncommitted (since w (copied p w)))) =
    Z.of_nat X_DATA_SIZE mod MAPPED_PROGMEM_PAGE_SIZE /\
  uncommitted (since w (copied p w)) =
    skipn (X_DATA_SIZE - length (uncommitted (since w (copied p w))))
          (block_stores p (xmodemData w)).
Proof.
  intros Hp. split; [apply write_block_copied|].
  rewrite (since_app w _ _ (copied_trace p w)).
  destruct (block_events_count p (xmodemData w) X_DATA_SIZE 0%nat 0 [])
    as [C U]; [lia|cbn; lia|reflexivity|].
  rewrite Z.add_0_l in C, U. split; [exact C|]. split; [exact U|].
  unfold uncommitted.
  destruct (pending_suffix (block_events X_DATA_SIZE p 0 0 (xmodemData w)) [])
    as [pre H].
  rewrite app_nil_l, stores_block_events in H.
  assert (length (block_stores p (xmodemData w)) = X_DATA_SIZE) as L
    by (unfold block_stores; rewrite length_map, length_seq; reflexivity).
  unfold block_stores in *.
  rewrite H in L |- *. rewrite length_app in L.
  replace (X_DATA_SIZE - _)%nat with (length pre) by lia.
  rewrite skipn_app, skipn_all, Nat.sub_diag, skipn_O, app_nil_l. reflexivity.
Qed.



End Pages.

(** ** A whole transfer, and where the bootloader waits *)

Lemma tx_bytes_app (a b : list event) : tx_bytes (a ++ b) = tx_bytes a ++ tx_bytes b.
Proof. unfold tx_bytes. apply flat_map_app. Qed.

Lemma tx_bytes_rx (l : list byte) : tx_bytes (map Rx l) = [].
Proof. induction l as [|c l IH]; [reflexivity|exact IH]. Qed.

Section Session.

Context {dev : Device} {D : Type} {nvmD : Nvm D}.

Local Abbreviation world := (world D).

Lemma tx_bytes_block_events (n : nat) :
  forall p i pbc a, tx_bytes (block_events n p i pbc a) = [].
Proof.
  induction n as [|n IH]; intros p i pbc a; [reflexivity|].
  cbn [block_events]. destruct (_ <? _).
  - change (tx_bytes (Store ?x ?y :: ?l)) with (tx_bytes l). apply IH.
  - change (tx_bytes (Store ?x ?y :: NvmCmd :: ?l)) with (tx_bytes l). apply IH.
Qed.

(** The trace of a frame that was read, copied and acknowledged. *)
Lemma block_acked_trace (f : frame) (rest : list byte) (w : world) (p : Z) :
  trace (emit (Tx X_ACK) (copied p (taken f rest w))) =
  trace w ++ map Rx (wire f) ++
  block_events X_DATA_SIZE p 0 0 (xmodemData (taken f rest w)) ++ [Tx X_ACK].
Proof.
  rewrite trace_emit, copied_trace. unfold taken at 1.
  cbn [trace arrived set_data]. rewrite <- !app_assoc. reflexivity.
Qed.

Lemma after_blocks_trace (fs : list frame) :
  forall p rest (w : world),
  Forall (fun f => length (payload f) = X_DATA_SIZE /\ valid f) fs ->
  exists new,
    trace (after_blocks p fs rest w) = trace w ++ new /\
    tx_bytes new = repeat X_ACK (length fs) /\
    stores new = session_stores p fs.
Proof.
  induction fs as [|f fs IH]; intros p rest w Hfs.
  - exists []. cbn. rewrite app_nil_r. auto.
  - inversion Hfs as [|f' fs' [Hlen _] Hfs']. subst.
    cbn [after_blocks].
    destruct (IH (p + Z.of_nat X_DATA_SIZE) rest
                (emit (Tx X_ACK) (copied p (taken f (flat_map wire fs ++ rest) w)))
                Hfs') as [new [T [A S]]].
    rewrite block_acked_trace in T.
    eexists. split; [rewrite T, <- !app_assoc; reflexivity|]. split.
    + rewrite !tx_bytes_app, tx_bytes_rx, tx_bytes_block_events, A. reflexivity.
    + rewrite !stores_app, stores_rx, stores_block_events, S.
      cbn [stores flat_map app session_stores]. f_equal.
      apply block_stores_ext. intros i Hi. apply taken_data_get; assumption.
Qed.

Lemma after_blocks_rx (fs : list frame) :
  forall p rest (w : world),
  rx w = flat_map wire fs ++ rest -> rx (after_blocks p fs rest w) = rest.
Proof.
  induction fs as [|f fs IH]; intros p rest w Hrx; [exact Hrx|].
  cbn [after_blocks]. apply IH. rewrite rx_emit, copied_rx. reflexivity.
Qed.

(** X12.  A transfer without errors: valid frames, each of which reads
    back as received, and then EOT.  The loop of [programApp] answers
    each frame with ACK and sends nothing else, stores the payloads to
    consecutive blocks of 128 bytes from [flashPtr] on, in the order of
    arrival, and ends with [flashPtr] behind the last block. *)
Theorem clean_transfer (fs : list frame) (rest : list byte) (w : world) (p : Z) :
  Forall (fun f => length (payload f) = X_DATA_SIZE /\ valid f) fs ->
  rx w = flat_map wire fs ++ X_EOT :: rest ->
  all_verified p fs (X_EOT :: rest) w ->
  program_loop p w =
    Done (p + Z.of_nat X_DATA_SIZE * Z.of_nat (length fs))
         (arrived [X_EOT] rest (after_blocks p fs (X_EOT :: rest) w)) /\
  tx_bytes (since w (after_blocks p fs (X_EOT :: rest) w)) =
    repeat X_ACK (length fs) /\
  stores (since w (after_blocks p fs (X_EOT :: rest) w)) = session_stores p fs.
Proof.
  intros Hfs Hrx Hv. split.
  - revert p w Hfs Hrx Hv.
    induction fs as [|f fs IH]; intros p w Hfs Hrx Hv.
    + cbn [after_blocks length]. rewrite (program_loop_eot rest w p Hrx).
      f_equal. lia.
    + inversion Hfs as [|f' fs' [Hlen Hval] Hfs']. subst.
      destruct Hv as [Hr Hv].
      cbn [flat_map] in Hrx. rewrite <- app_assoc in Hrx.
      rewrite program_loop_eq, (program_pass_frame f _ w p Hlen Hrx Hval), Hr.
      cbn [after_blocks].
      rewrite IH; try assumption.
      * f_equal. cbn [length]. lia.
      * rewrite rx_emit, copied_rx. reflexivity.
  - destruct (after_blocks_trace fs p (X_EOT :: rest) w Hfs) as [new [T [A S]]].
    rewrite (since_app _ _ _ T). split; assumption.
Qed.

(** *** Where the bootloader waits *)









End Session.

(** ** A sender that uses the same CRC *)

Lemma sent_valid (bn : byte) (data : list byte) : valid (sent bn data).
Proof.
  split.
  - unfold pair_ok. cbn [sent number inverse].
    pose proof (u8_range bn). rewrite u8_to_byte by lia. lia.
  - unfold crc_ok, trailer. rewrite <- CRC_facts.crc_run_reference.
    cbn [sent payload crc_hi crc_lo].
    assert (0 <= CRC.crc_run 0 data < 65536) as R
      by (apply CRC_facts.crc_run_range; lia).
    pose proof (header_decode _ R). lia.
Qed.

Section Sender.

Context {dev : Device} {D : Type} {nvmD : Nvm D}.

Local Abbreviation world := (world D).

(** X14.  The round trip with a sender that numbers a block, adds the
    complement of the number, and appends the CRC that [crc16]
    accumulates from 0, high byte first: whatever the number and the 128
    bytes are, [xmodem] returns true and the receive buffer holds the
    bytes that were sent. *)
Theorem sender_round_trip (bn : byte) (data rest : list byte) (w : world) :
  length data = X_DATA_SIZE ->
  rx w = wire (sent bn data) ++ rest ->
  xmodem w = Done true (taken (sent bn data) rest w) /\
  firstn X_DATA_SIZE (xmodemData (taken (sent bn data) rest w)) = data /\
  rx (taken (sent bn data) rest w) = rest.
Proof.
  intros Hlen Hrx. split; [|split; [|reflexivity]].
  - apply xmodem_frame_valid; [exact Hlen|exact Hrx|apply sent_valid].
  - cbn [xmodemData taken arrived set_data]. unfold overwrite.
    change (payload (sent bn data)) with data. rewrite <- Hlen.
    rewrite firstn_app, firstn_all, Nat.sub_diag, firstn_O. apply app_nil_r.
Qed.

End Sender.

(** ** The further properties on the simulated device *)

Lemma corrupted_byte_is_rejected_witness :
  valid demo_frame /\
  payload demo_frame = [] ++ "A"%byte :: repeat "A"%byte 127 /\
  length (payload demo_frame) = X_DATA_SIZE /\
  "A"%byte <> "B"%byte /\
  rejected (with_payload demo_frame demo_struck) [X_EOT]
    (demo_world (wire (with_payload demo_frame demo_struck) ++ [X_EOT]) sim_erased).
Proof.
  assert ("A"%byte <> "B"%byte) as N by discriminate.
  split; [exact demo_frame_valid|]. split; [reflexivity|]. split; [reflexivity|].
  split; [exact N|].
  exact (proj2 (corrupted_byte_is_rejected demo_frame
                  [] (repeat "A"%byte 127) "A"%byte "B"%byte [X_EOT]
                  (demo_world (wire (with_payload demo_frame demo_struck) ++ [X_EOT])
                     sim_erased)
                  demo_frame_valid eq_refl eq_refl N eq_refl)).
Defined.

Lemma stray_bytes_are_skipped_witness :
  Forall idle_byte [X_ACK; X_PING] /\
  xmodem (demo_world ([X_ACK; X_PING] ++ [X_EOT]) sim_erased) =
  xmodem (arrived [X_ACK; X_PING] [X_EOT]
            (demo_world ([X_ACK; X_PING] ++ [X_EOT]) sim_erased)).
Proof.
  assert (Forall idle_byte [X_ACK; X_PING]) as N
    by (repeat constructor; discriminate).
  split; [exact N|].
  exact (stray_bytes_are_skipped [X_ACK; X_PING] [X_EOT]
           (demo_world ([X_ACK; X_PING] ++ [X_EOT]) sim_erased) N eq_refl).
Defined.

Lemma truncated_frame_waits_witness :
  (length [x01; xfe; "A"%byte] < 2 + X_DATA_SIZE + 2)%nat /\
  exists w',
    xmodem (demo_world (X_SOH :: [x01; xfe; "A"%byte]) sim_erased) = Blocked w' /\
    rx w' = [] /\
    since (demo_world (X_SOH :: [x01; xfe; "A"%byte]) sim_erased) w' =
      map Rx (X_SOH :: [x01; xfe; "A"%byte]).
Proof.
  assert (length [x01; xfe; "A"%byte] < 2 + X_DATA_SIZE + 2)%nat as L
    by (vm_compute; lia).
  split; [exact L|].
  exact (truncated_frame_waits [x01; xfe; "A"%byte]
           (demo_world (X_SOH :: [x01; xfe; "A"%byte]) sim_erased) eq_refl L).
Defined.

Lemma handshake_ends_at_first_edge_witness :
  Forall quiet [x00; x00] /\ rx_flag x08 = true /\
  Xbroadcast (demo_polls ([x00; x00] ++ x08 :: [x00])) =
  Done tt (handshake (S (Z.to_nat (Z.of_nat (length [x00; x00]) / polls_per_ping)))
             [x00] (demo_polls ([x00; x00] ++ x08 :: [x00]))).
Proof.
  assert (Forall quiet [x00; x00]) as Q by (repeat constructor).
  split; [exact Q|]. split; [reflexivity|].
  exact (handshake_ends_at_first_edge [x00; x00] [x00] x08
           (demo_polls ([x00; x00] ++ x08 :: [x00])) Q eq_refl eq_refl).
Defined.

Lemma handshake_needs_edge_witness :
  Forall quiet (edges (demo_polls [x00; x00; x00])) /\
  Xbroadcast (demo_polls [x00; x00; x00]) =
  Blocked (handshake
             (S (Z.to_nat (Z.of_nat (length (edges (demo_polls [x00; x00; x00]))) /
                           polls_per_ping)))
             [] (demo_polls [x00; x00; x00])).
Proof.
  assert (Forall quiet (edges (demo_polls [x00; x00; x00]))) as Q
    by (repeat constructor).
  split; [exact Q|].
  exact (handshake_needs_edge (demo_polls [x00; x00; x00]) Q).
Defined.

Lemma dump_can_be_parsed_witness :
  in_range (SIGROW_ADDR (Device:=attiny3217), SIGROW_SIZE (Device:=attiny3217)) /\
  exists stream,
    dumpMem (SIGROW_ADDR (Device:=attiny3217)) (SIGROW_SIZE (Device:=attiny3217))
      (demo_world [] sim_erased) =
      Done tt (transmitted stream (demo_world [] sim_erased)) /\
    length stream = (4 + Z.to_nat (wrap16 (SIGROW_SIZE (Device:=attiny3217))))%nat /\
    parse_dump (stream ++ [X_ACK]) =
      Some (dumped (mem (demo_world [] sim_erased))
              (SIGROW_ADDR (Device:=attiny3217), SIGROW_SIZE (Device:=attiny3217)),
            [X_ACK]).
Proof.
  assert (in_range (SIGROW_ADDR (Device:=attiny3217),
                    SIGROW_SIZE (Device:=attiny3217))) as R
    by (vm_compute; discriminate).
  split; [exact R|].
  exact (dump_can_be_parsed _ _ (demo_world [] sim_erased)
           [X_ACK] R).
Defined.

Lemma dumps_follow_the_flag_witness :
  Forall in_range (dump_regions (dev:=attiny3217)) /\
  match programApp (dev:=attiny3217) (emit Init (demo_world [X_EOT] sim_erased)) with
  | Done _ w1 =>
      exists stream,
        bootloader (dev:=attiny3217) (demo_world [X_EOT] sim_erased) =
        Done tt (emit SoftReset
                   (set_pins (released_after (pins w1))
                      (transmitted stream (flagged (dev:=attiny3217) w1)))) /\
        parse_dumps 4 stream =
        Some (map (dumped (mem (flagged (dev:=attiny3217) w1)))
                  (dump_regions (dev:=attiny3217)), [])
  | Blocked w1 =>
      bootloader (dev:=attiny3217) (demo_world [X_EOT] sim_erased) = Blocked w1
  end.
Proof.
  assert (Forall in_range (dump_regions (dev:=attiny3217))) as R
    by (repeat constructor; vm_compute; discriminate).
  split; [exact R|].
  exact (dumps_follow_the_flag (dev:=attiny3217) (demo_world [X_EOT] sim_erased) R).
Defined.

Lemma pages_of_any_size_witness :
  0 < MAPPED_PROGMEM_PAGE_SIZE (Device:=page256) /\
  Z.of_nat (commits (since (demo_world [] sim_erased)
                       (copied (dev:=page256) 0x8800 (demo_world [] sim_erased)))) =
    Z.of_nat X_DATA_SIZE / MAPPED_PROGMEM_PAGE_SIZE (Device:=page256).
Proof.
  assert (0 < MAPPED_PROGMEM_PAGE_SIZE (Device:=page256)) as P by reflexivity.
  split; [exact P|].
  exact (proj1 (proj2 (pages_of_any_size (dev:=page256) 0x8800
                         (demo_world [] sim_erased) P))).
Defined.

Lemma clean_transfer_witness :
  Forall (fun f => length (payload f) = X_DATA_SIZE /\ valid f) demo_frames /\
  all_verified (dev:=attiny3217) 0x8800 demo_frames [X_EOT]
    (demo_world (flat_map wire demo_frames ++ [X_EOT]) sim_erased) /\
  tx_bytes (since (demo_world (flat_map wire demo_frames ++ [X_EOT]) sim_erased)
              (after_blocks (dev:=attiny3217) 0x8800 demo_frames [X_EOT]
                 (demo_world (flat_map wire demo_frames ++ [X_EOT]) sim_erased))) =
    repeat X_ACK (length demo_frames).
Proof.
  assert (Forall (fun f => length (payload f) = X_DATA_SIZE /\ valid f) demo_frames)
    as F by (repeat constructor; vm_compute; reflexivity).
  assert (all_verified (dev:=attiny3217) 0x8800 demo_frames [X_EOT]
            (demo_world (flat_map wire demo_frames ++ [X_EOT]) sim_erased)) as V
    by (repeat split; vm_compute; reflexivity).
  split; [exact F|]. split; [exact V|].
  exact (proj1 (proj2 (clean_transfer (dev:=attiny3217) demo_frames []
                         (demo_world (flat_map wire demo_frames ++ [X_EOT]) sim_erased)
                         0x8800 F eq_refl V))).
Defined.

Lemma sender_round_trip_witness :
  length demo_payload2 = X_DATA_SIZE /\
  xmodem (demo_world (wire (sent x07 demo_payload2) ++ [X_EOT]) sim_erased) =
  Done true (taken (sent x07 demo_payload2) [X_EOT]
               (demo_world (wire (sent x07 demo_payload2) ++ [X_EOT]) sim_erased)).
Proof.
  split; [reflexivity|].
  exact (proj1 (sender_round_trip x07 demo_payload2 [X_EOT]
                  (demo_world (wire (sent x07 demo_payload2) ++ [X_EOT]) sim_erased)
                  eq_refl eq_refl)).
Defined.
